(** * Entity construction and node-tree controller of the MLE API

    A shallow embedding of

    - [src/lib/data.utils.js]         ([sanitize], [humanize], [toSnake],
      [groupBy]),
    - [services/construct.services.js] (the entity constructor returned by
      [create] and its methods [setData], [getData], [getValue],
      [setValue], [addAttribute], [clear], ...),
    - [controllers/model.controller.js] (the request handlers [show],
      [add], [edit], [move], [remove] and [create]),

    followed by the properties of the specification that concern them.

    Conventions of the embedding.
    - JavaScript strings are byte strings; case mapping is the ASCII one.
    - JavaScript numbers are kept abstract (class [Builtins]): the code only
      parses, prints and tests them.
    - Plain objects are association lists in insertion order; property
      names are assumed not to be array indices, for which JavaScript
      orders keys differently.
    - Only the own properties of a value are represented. The method
      [hasOwnProperty] is taken to be the inherited one: where a theorem
      takes an arbitrary input it leaves aside the inputs that own a
      property of that name, on which the call raises; an attribute
      table is assumed not to own an attribute of that name. A value
      prints unless it is an object that owns a property [toString], or
      an array that holds one.
    - Objects that the code shares and mutates (the attribute table of a
      schema) live in a store and are referred to by location. *)

From Stdlib Require Import ZArith Ascii String List Bool Lia.
From stdpp Require Import base list strings pretty.

Local Open Scope string_scope.
Local Open Scope list_scope.

(** ** JavaScript values *)

(** The built-in operations on numbers and strings that the code calls:
    they are parameters of everything below. *)
Class Builtins := {
  number : Type;
  (** [!!n]: false for [0], [-0] and [NaN]. *)
  num_truthy : number -> bool;
  num_isNaN : number -> bool;
  num_isFinite : number -> bool;
  (** [String(n)]. *)
  num_toString : number -> string;
  (** The number of an array length. *)
  num_of_nat : nat -> number;
  (** [parseInt] and [parseFloat] on the string form of their argument. *)
  str_parseInt : string -> number;
  str_parseFloat : string -> number;
  (** The quoted form of a string in [JSON.stringify]. *)
  json_quote : string -> string
}.

(** Exceptions raised by the language itself. *)
Inductive exn : Type :=
| TypeError.

Inductive outcome (A : Type) : Type :=
| Ret (a : A)
| Throw (e : exn).
Arguments Ret {A} a.
Arguments Throw {A} e.

(** Association lists as objects: [o[k]] and [o[k] = x]. *)
Fixpoint assoc {A} (k : string) (o : list (string * A)) : option A :=
  match o with
  | [] => None
  | (k', x) :: o' => if String.eqb k k' then Some x else assoc k o'
  end.

Fixpoint assoc_set {A} (k : string) (x : A) (o : list (string * A))
  : list (string * A) :=
  match o with
  | [] => [(k, x)]
  | (k', y) :: o' =>
      if String.eqb k k' then (k', x) :: o' else (k', y) :: assoc_set k x o'
  end.

Definition keys {A} (o : list (string * A)) : list string := map fst o.

Definition has_key {A} (k : string) (o : list (string * A)) : bool :=
  match assoc k o with Some _ => true | None => false end.

Fixpoint join (sep : string) (l : list string) : string :=
  match l with
  | [] => ""
  | [s] => s
  | s :: l' => s +:+ sep +:+ join sep l'
  end.

Set Warnings "-register-all".

Section Values.
Context `{BI : Builtins}.

Inductive value : Type :=
| VUndefined
| VNull
| VBool (b : bool)
| VNum (n : number)
| VStr (s : string)
| VArr (elems : list value)
| VObj (props : list (string * value)).

(** [!!v] *)
Definition truthy (v : value) : bool :=
  match v with
  | VUndefined | VNull => false
  | VBool b => b
  | VNum n => num_truthy n
  | VStr s => negb (String.eqb s "")
  | VArr _ | VObj _ => true
  end.

Definition is_nullish (v : value) : bool :=
  match v with VUndefined | VNull => true | _ => false end.

(** [typeof v === 'object' && v !== null] *)
Definition is_object (v : value) : bool :=
  match v with VArr _ | VObj _ => true | _ => false end.

(** [String(v)] for a value that prints; an array prints its elements
    separated by commas, with [null] and [undefined] elements printed as
    the empty string. *)
Fixpoint toString (v : value) : string :=
  match v with
  | VUndefined => "undefined"
  | VNull => "null"
  | VBool true => "true"
  | VBool false => "false"
  | VNum n => num_toString n
  | VStr s => s
  | VArr l =>
      join "," (map (fun x => if is_nullish x then "" else toString x) l)
  | VObj _ => "[object Object]"
  end.

(** Whether a value prints. The conversion of an object to a string
    calls its [toString]; an object that owns a property [toString] holds
    there a value that is no function, and the conversion raises a
    [TypeError]. An array prints its elements. *)
Fixpoint printable (v : value) : bool :=
  match v with
  | VObj ps => negb (has_key "toString" ps)
  | VArr l => forallb printable l
  | _ => true
  end.

(** [v.toString()], [parseInt(v)], [parseFloat(v)], [v.join(',')]: the
    string of [v], or a [TypeError]. *)
Definition to_string (v : value) : outcome string :=
  if printable v then Ret (toString v) else Throw TypeError.

(** [JSON.stringify(v)]; [None] stands for [undefined]. *)
Fixpoint stringify (v : value) : option string :=
  match v with
  | VUndefined => None
  | VNull => Some "null"
  | VBool true => Some "true"
  | VBool false => Some "false"
  | VNum n => Some (if num_isFinite n then num_toString n else "null")
  | VStr s => Some (json_quote s)
  | VArr l =>
      Some ("[" +:+ join ","
              (map (fun x => match stringify x with
                             | Some s => s
                             | None => "null"
                             end) l) +:+ "]")
  | VObj ps =>
      Some ("{" +:+ join ","
              ((fix members (ps : list (string * value)) : list string :=
                  match ps with
                  | [] => []
                  | (k, x) :: ps' =>
                      match stringify x with
                      | Some s => (json_quote k +:+ ":" +:+ s) :: members ps'
                      | None => members ps'
                      end
                  end) ps) +:+ "}")
  end.

(** The own enumerable properties of a value, in the order of
    [Object.keys]. *)
Definition indexed (l : list value) : list (string * value) :=
  imap (fun i x => (pretty i, x)) l.

Definition chars (s : string) : list value :=
  map (fun c => VStr (String c EmptyString)) (list_ascii_of_string s).

Definition entries (v : value) : list (string * value) :=
  match v with
  | VObj ps => ps
  | VArr l => indexed l
  | VStr s => indexed (chars s)
  | _ => []
  end.

(** [Object.keys(v)] *)
Definition object_keys (v : value) : outcome (list string) :=
  if is_nullish v then Throw TypeError else Ret (keys (entries v)).

(** [v.hasOwnProperty(k)] for an object or an array [v] whose
    [hasOwnProperty] is the method that it inherits. On an object that
    owns a property [hasOwnProperty] the call raises a [TypeError]
    instead (see [inherits_hasOwnProperty]); the theorems below that take
    an arbitrary input say that they leave such an input aside. *)
Definition has_own (v : value) (k : string) : bool :=
  has_key k (entries v)
  || match v with
     | VArr _ => String.eqb k "length"
     | _ => false
     end.

(** Whether [v.hasOwnProperty] is the inherited method. *)
Definition inherits_hasOwnProperty (v : value) : bool :=
  negb (has_own v "hasOwnProperty").

(** [v[k]] for a [v] that is neither [null] nor [undefined], and a [k]
    that [v] owns or that nothing defines for [v]: the properties that
    [v] inherits (the methods of [Object.prototype] and the like) are
    not represented. The handlers read fixed field names, none of them
    inherited. *)
Definition get_prop (v : value) (k : string) : value :=
  match assoc k (entries v) with
  | Some x => x
  | None =>
      match v with
      | VArr l => if String.eqb k "length"
                  then VNum (num_of_nat (length l)) else VUndefined
      | VStr s => if String.eqb k "length"
                  then VNum (num_of_nat (String.length s)) else VUndefined
      | _ => VUndefined
      end
  end.

(** [v[k]], which raises when [v] is [null] or [undefined]. *)
Definition get_member (v : value) (k : string) : outcome value :=
  if is_nullish v then Throw TypeError else Ret (get_prop v k).

(** ** [data.utils.js] *)

(** [s.replace(/(<([^>]+)>)/ig, '')]: every [<], followed by at least one
    character other than [>] and then by [>], is removed up to that [>]. *)
Definition gt : ascii := ">"%char.
Definition lt : ascii := "<"%char.

Fixpoint contains_gt (s : string) : bool :=
  match s with
  | EmptyString => false
  | String c s' => Ascii.eqb c gt || contains_gt s'
  end.

Definition opens_tag (rest : string) : bool :=
  match rest with
  | EmptyString => false
  | String c _ => negb (Ascii.eqb c gt) && contains_gt rest
  end.

Fixpoint strip_from (inside : bool) (s : string) : string :=
  match s with
  | EmptyString => EmptyString
  | String c s' =>
      if inside then strip_from (negb (Ascii.eqb c gt)) s'
      else if Ascii.eqb c lt && opens_tag s' then strip_from true s'
      else String c (strip_from false s')
  end.

Definition strip_tags (s : string) : string := strip_from false s.

(** [sanitize(data, datatype)] *)
Definition sanitize_text (data : value) : outcome value :=
  match data with
  | VNull => Ret (VStr "")
  | VStr EmptyString => Ret (VStr "")
  | VUndefined => Throw TypeError
  | _ =>
      match to_string data with
      | Ret s => Ret (VStr (strip_tags s))
      | Throw e => Throw e
      end
  end.

Definition sanitize_integer (data : value) : outcome value :=
  match to_string data with
  | Ret s =>
      let n := str_parseInt s in
      Ret (if num_isNaN n then VNull else VNum n)
  | Throw e => Throw e
  end.

Definition sanitize_float (data : value) : outcome value :=
  match to_string data with
  | Ret s =>
      let n := str_parseFloat s in
      Ret (if num_isNaN n then VNull else VNum n)
  | Throw e => Throw e
  end.

(** The names that an object created with [{}] inherits from
    [Object.prototype]. *)
Definition prototype_names : list string :=
  ["constructor"; "__defineGetter__"; "__defineSetter__"; "hasOwnProperty";
   "__lookupGetter__"; "__lookupSetter__"; "isPrototypeOf";
   "propertyIsEnumerable"; "toString"; "valueOf"; "__proto__";
   "toLocaleString"].

(** [sanitizers[datatype]()] for a [datatype] that the table of
    sanitizers does not own but inherits: the inherited value is called
    with no argument and, in strict mode, no receiver. [Object()] returns
    an empty object, [toString] prints the missing receiver,
    [isPrototypeOf] answers [false] before it looks at the receiver; the
    other methods raise a [TypeError] on the missing receiver, and
    [__proto__] is an object, not a function. *)
Definition sanitize_inherited (datatype : string) : option (outcome value) :=
  if String.eqb datatype "constructor" then Some (Ret (VObj []))
  else if String.eqb datatype "toString"
  then Some (Ret (VStr "[object Undefined]"))
  else if String.eqb datatype "isPrototypeOf" then Some (Ret (VBool false))
  else if existsb (String.eqb datatype) prototype_names
  then Some (Throw TypeError)
  else None.

Definition sanitize_default (data : value) : outcome value :=
  match data with
  | VStr EmptyString => Ret VNull
  | _ => Ret data
  end.

Definition sanitize (data : value) (datatype : string) : outcome value :=
  if String.eqb datatype "boolean" then Ret (VBool (truthy data))
  else if String.eqb datatype "varying character" then sanitize_text data
  else if String.eqb datatype "integer" then sanitize_integer data
  else if String.eqb datatype "double precision" then sanitize_float data
  else if String.eqb datatype "float" then sanitize_float data
  else if String.eqb datatype "json" then
    Ret (match stringify data with Some s => VStr s | None => VUndefined end)
  else if String.eqb datatype "USER-DEFINED" then
    match data with
    | VArr _ =>
        match to_string data with
        | Ret s => Ret (VStr ("(" +:+ s +:+ ")"))
        | Throw e => Throw e
        end
    | _ => Ret VNull
    end
  else if String.eqb datatype "text" then sanitize_text data
  else
    match sanitize_inherited datatype with
    | Some o => o
    | None => sanitize_default data
    end.

(** [toSnake(str)]: each of [A]..[Z] becomes [_] and its lower case. *)
Definition is_upper (c : ascii) : bool :=
  (65 <=? nat_of_ascii c)%nat && (nat_of_ascii c <=? 90)%nat.
Definition is_lower (c : ascii) : bool :=
  (97 <=? nat_of_ascii c)%nat && (nat_of_ascii c <=? 122)%nat.
Definition to_lower (c : ascii) : ascii :=
  if is_upper c then ascii_of_nat (nat_of_ascii c + 32) else c.
Definition to_upper (c : ascii) : ascii :=
  if is_lower c then ascii_of_nat (nat_of_ascii c - 32) else c.

Fixpoint toSnake (s : string) : string :=
  match s with
  | EmptyString => EmptyString
  | String c s' =>
      if is_upper c then String "_"%char (String (to_lower c) (toSnake s'))
      else String c (toSnake s')
  end.

(** [s.split('_')] *)
Fixpoint split_underscore (s : string) : list string :=
  match s with
  | EmptyString => [EmptyString]
  | String c s' =>
      if Ascii.eqb c "_"%char then EmptyString :: split_underscore s'
      else match split_underscore s' with
           | [] => [String c EmptyString]
           | f :: fs => String c f :: fs
           end
  end.

Definition capitalize (s : string) : string :=
  match s with
  | EmptyString => EmptyString
  | String c s' => String (to_upper c) s'
  end.

(** [humanize(str)] *)
Definition humanize (s : string) : string :=
  join " " (map capitalize (split_underscore (toSnake s))).

End Values.

(** ** [construct.services.js] *)

Section Construct.
Context `{BI : Builtins}.

(** [schemaConstructor.genLabel], of [schema.services.js]. *)
Variable genLabel : string -> value -> string.

(** An attribute object: [{value, key, label, type}], and [data] once the
    [node] or [file] setter has run. *)
Record attribute : Type := {
  attr_value : value;
  attr_key : string;
  attr_label : string;
  attr_type : string;
  attr_data : value
}.

Definition with_value (a : attribute) (v : value) : attribute :=
  {| attr_value := v; attr_key := attr_key a; attr_label := attr_label a;
     attr_type := attr_type a; attr_data := attr_data a |}.

(** What [this.attributes] can refer to: the attribute table of the
    schema, or, once [clear] has run, an array of [n] undefined entries
    (with the named properties that [addAttribute] has put on it since). *)
Inductive cell : Type :=
| CAttrs (table : list (string * attribute))
| CArray (n : nat) (named : list (string * attribute)).

Definition loc : Type := nat.

Record store : Type := {
  heap : list cell;
  console : list string
}.

(** The object [new Schema()] of [schema.services.js], by the properties
    that the constructor reads. Its [attributes] is taken to be an
    ordinary property: reading it yields a reference to the one attribute
    table of the schema. *)
Record schema : Type := {
  schema_idKey : option string;
  schema_attributes : loc;
  schema_rootNodeTypes : list string;
  schema_nodeDepth : list (string * Z);
  schema_fsRoot : list (string * string)
}.

(** The fields that the constructor assigns on [this]. *)
Record instance : Type := {
  name : string;
  key : string;
  idKey : option string;
  label : string;
  attributes : loc;
  isRoot : bool;
  depth : option Z;
  fsRoot : string
}.

Definition with_attributes (i : instance) (l : loc) : instance :=
  {| name := name i; key := key i; idKey := idKey i; label := label i;
     attributes := l; isRoot := isRoot i; depth := depth i;
     fsRoot := fsRoot i |}.

(** Computations that read and write the store and may raise. *)
Definition M (A : Type) : Type := store -> outcome A * store.

Definition ret {A} (a : A) : M A := fun st => (Ret a, st).
Definition throw {A} (e : exn) : M A := fun st => (Throw e, st).
Definition bind {A B} (m : M A) (f : A -> M B) : M B :=
  fun st =>
    match m st with
    | (Ret a, st') => f a st'
    | (Throw e, st') => (Throw e, st')
    end.
Definition lift {A} (o : outcome A) : M A := fun st => (o, st).

Notation "x <- m ;; k" := (bind m (fun x => k))
  (at level 100, m at next level, right associativity).
Notation "m ;;; k" := (bind m (fun _ => k))
  (at level 100, right associativity).

Fixpoint for_each {A} (f : A -> M unit) (l : list A) : M unit :=
  match l with
  | [] => ret tt
  | x :: l' => f x ;;; for_each f l'
  end.

Definition console_warn (msg : string) : M unit :=
  fun st => (Ret tt, {| heap := heap st; console := console st ++ [msg] |}).

Definition read_cell (l : loc) : M (option cell) :=
  fun st => (Ret (heap st !! l), st).

Definition write_cell (l : loc) (c : cell) : M unit :=
  fun st => (Ret tt, {| heap := <[l := c]> (heap st); console := console st |}).

Definition alloc_cell (c : cell) : M loc :=
  fun st => (Ret (length (heap st)),
             {| heap := heap st ++ [c]; console := console st |}).

(** The index strings ["0"], ..., ["n-1"] of an array of length [n]. *)
Definition index_keys (n : nat) : list string := map pretty (seq 0 n).

(** [Object.keys(this.attributes)]; [None] where [this.attributes] is
    undefined. *)
Definition cell_keys (c : option cell) : outcome (list string) :=
  match c with
  | None => Throw TypeError
  | Some (CAttrs table) => Ret (keys table)
  | Some (CArray n named) => Ret (index_keys n ++ keys named)
  end.

(** [this.attributes && this.attributes.hasOwnProperty(k)], on a table
    that does not itself own an attribute named [hasOwnProperty] (the
    attributes are the columns of a database table). *)
Definition cell_has (c : option cell) (k : string) : bool :=
  match c with
  | None => false
  | Some (CAttrs table) => has_key k table
  | Some (CArray n named) =>
      existsb (String.eqb k) (index_keys n) || String.eqb k "length"
      || has_key k named
  end.

(** What [this.attributes[k]] evaluates to. *)
Inductive slot : Type :=
| SAttr (a : attribute)
| SUndefined
| SLength.

Definition cell_get (c : option cell) (k : string) : outcome slot :=
  match c with
  | None => Throw TypeError
  | Some (CAttrs table) =>
      Ret (match assoc k table with Some a => SAttr a | None => SUndefined end)
  | Some (CArray n named) =>
      Ret (if existsb (String.eqb k) (index_keys n) then SUndefined
           else if String.eqb k "length" then SLength
           else match assoc k named with
                | Some a => SAttr a
                | None => SUndefined
                end)
  end.

(** [this.attributes[k] = a] on the object that [this.attributes] refers
    to. *)
Definition cell_put (c : cell) (k : string) (a : attribute) : cell :=
  match c with
  | CAttrs table => CAttrs (assoc_set k a table)
  | CArray n named => CArray n (assoc_set k a named)
  end.

(** [this.attributes[k].value] *)
Definition read_value (l : loc) (k : string) : M value :=
  c <- read_cell l ;;
  s <- lift (cell_get c k) ;;
  match s with
  | SAttr a => ret (attr_value a)
  | SUndefined => throw TypeError
  | SLength => ret VUndefined
  end.

(** [this.attributes[k].value = f(this.attributes[k].type)]: the target
    object is looked up, then the right-hand side is evaluated, then the
    property is written. The module is in strict mode, where writing a
    property of a number raises. *)
Definition assign_value (l : loc) (k : string) (rhs : string -> outcome value)
  : M unit :=
  c <- read_cell l ;;
  s <- lift (cell_get c k) ;;
  match s, c with
  | SAttr a, Some c' =>
      v <- lift (rhs (attr_type a)) ;;
      write_cell l (cell_put c' k (with_value a v))
  | SLength, _ =>
      _ <- lift (rhs "undefined") ;;
      throw TypeError
  | _, _ => throw TypeError
  end.

(** [setData(data)] *)
Definition warning (k : string) (model : string) : string :=
  "Attribute key '" +:+ k +:+ "' was not in model schema for '"
    +:+ model +:+ "'.".

(** [data.hasOwnProperty('rows') ? data.rows[0] : data], for a [data]
    whose [hasOwnProperty] is the inherited method
    ([inherits_hasOwnProperty]). On an input that owns a property of
    that name the code raises a [TypeError] here, before it warns or
    stores anything. *)
Definition select_input (data : value) : outcome value :=
  if has_own data "rows"
  then get_member (get_prop data "rows") "0"
  else Ret data.

Definition setData (this : instance) (data : value) : M unit :=
  if is_object data then
    inputData <- lift (select_input data) ;;
    ks <- lift (object_keys inputData) ;;
    c <- read_cell (attributes this) ;;
    for_each (fun k => console_warn (warning k (name this)))
             (List.filter (fun k => negb (cell_has c k)) ks) ;;;
    ks' <- lift (object_keys inputData) ;;
    c' <- read_cell (attributes this) ;;
    for_each (fun k => assign_value (attributes this) k
                         (sanitize (get_prop inputData k)))
             (List.filter (fun k => cell_has c' k) ks')
  else ret tt.

(** The function returned by [create(modelType)], called with [new]. The
    schema object is the one that [create] built before returning it:
    every instance of one constructor reads the same [schema]. *)
Definition this_of (modelType : string) (sch : schema)
    (attributeValues : value) : instance :=
  {| name := modelType;
     key := modelType +:+ "_id";
     idKey := schema_idKey sch;
     label := genLabel modelType attributeValues;
     attributes := schema_attributes sch;
     isRoot := existsb (String.eqb modelType) (schema_rootNodeTypes sch);
     depth := match assoc modelType (schema_nodeDepth sch) with
              | Some d => Some d
              | None => assoc "default" (schema_nodeDepth sch)
              end;
     fsRoot := match assoc modelType (schema_fsRoot sch) with
               | Some r => r
               | None => "Unknown"
               end |}.

Definition construct (modelType : string) (sch : schema)
    (attributeValues : value) : M instance :=
  let this := this_of modelType sch attributeValues in
  setData this attributeValues ;;;
  ret this.

(** [hasAttribute(attr)] *)
Definition hasAttribute (sch : schema) (attr : string) : M bool :=
  c <- read_cell (schema_attributes sch) ;;
  match c with
  | None => throw TypeError
  | Some _ => ret (cell_has c attr)
  end.

(** [addAttribute(name, type, value=null)] *)
Definition addAttribute (this : instance) (nm : string) (type : string)
    (v : value) : M unit :=
  let a := {| attr_value := match v with VUndefined => VNull | _ => v end;
              attr_key := nm;
              attr_label := humanize nm;
              attr_type := type;
              attr_data := VUndefined |} in
  c <- read_cell (attributes this) ;;
  match c with
  | None => throw TypeError
  | Some c' => write_cell (attributes this) (cell_put c' nm a)
  end.

(** The getter of [node]: the attribute object of [nodes_id], or [null]. *)
Definition node (sch : schema) (this : instance) : M (option attribute) :=
  has <- hasAttribute sch "nodes_id" ;;
  if has then
    c <- read_cell (attributes this) ;;
    s <- lift (cell_get c "nodes_id") ;;
    ret (match s with SAttr a => Some a | _ => None end)
  else ret None.

(** [getValue(field=null)] *)
Definition getValue (this : instance) (field : string) : M value :=
  if String.eqb field "" then ret VNull
  else
    c <- read_cell (attributes this) ;;
    match c with
    | None => throw TypeError
    | Some _ =>
        if cell_has c field
        then read_value (attributes this) field
        else ret VNull
    end.

(** [setValue(key, value)], for a string [key]. *)
Definition setValue (this : instance) (k : string) (v : value) : M unit :=
  c <- read_cell (attributes this) ;;
  match c with
  | None => throw TypeError
  | Some _ =>
      if cell_has c k
      then assign_value (attributes this) k (sanitize v)
      else ret tt
  end.

(** [getData(filter=[])] *)
Fixpoint collect (l : loc) (ks : list string) (o : list (string * value))
  : M (list (string * value)) :=
  match ks with
  | [] => ret o
  | k :: ks' =>
      v <- read_value l k ;;
      collect l ks' (assoc_set k v o)
  end.

Definition getData (this : instance) (filter_ : list string) : M value :=
  c <- read_cell (attributes this) ;;
  ks <- lift (cell_keys c) ;;
  o <- collect (attributes this)
         (List.filter (fun k => negb (existsb (String.eqb k) filter_)) ks) [] ;;
  ret (VObj o).

(** [clear()]: every value is set to [null] through the current
    [this.attributes]; the array that [map] returns, one [undefined] per
    key, is then assigned to [this.attributes]. *)
Definition clear (this : instance) : M instance :=
  c <- read_cell (attributes this) ;;
  ks <- lift (cell_keys c) ;;
  for_each (fun k => assign_value (attributes this) k (fun _ => Ret VNull))
           ks ;;;
  l <- alloc_cell (CArray (length ks) []) ;;
  ret (with_attributes this l).

End Construct.

(** ** [model.controller.js] *)

(** What a handler can be failed with: an exception of the language, or
    [new Error(msg)]. *)
Inductive error : Type :=
| Thrown (e : exn)
| Error (msg : string).

Inductive result (A : Type) : Type :=
| Ok (a : A)
| Fail (err : error).
Arguments Ok {A} a.
Arguments Fail {A} err.

Section Controller.
Context `{BI : Builtins}.
Variable genLabel : string -> value -> string.

(** The services that the controller awaits. Each either resolves to a
    value or rejects; the client that [pool.connect] resolves to is the
    one passed to every call of a handler. The services of [nserve],
    [mserve], [metaserve] and the comparisons are not part of the
    sources: a call of one of them is one step of the handler, and what
    the service sends on the client that it is handed is accounted for
    separately (see [wire]). *)
Record services : Type := {
  pool_connect : result unit;
  client_query : string -> result unit;
  client_release : result unit;
  nserve_get : value -> string -> result value;
  nserve_select : value -> result value;
  nserve_getPath : value -> result value;
  nserve_selectByOwner : value -> result value;
  metaserve_getAttachedByNode : value -> result value;
  getComparisonsMetadata : value -> result value;
  isRelatable : value -> value -> result value;
  deleteComparisons : value -> result unit;
  mserve_move : instance -> value -> result value;
  mserve_remove : instance -> result unit;
  importer_receive : value -> result unit
}.

(** What a handler does that can be observed from outside. *)
Inductive event : Type :=
| EConnect
| ERelease
| EQuery (sql : string)
| EGet (id : value) (type : string)
| ESelect (id : value)
| EGetPath (node : value)
| ESelectByOwner (id : value)
| EGetAttached (node : value)
| EGetComparisons (node : value)
| EIsRelatable (id owner_id : value)
| EDeleteComparisons (node : value)
| EMove (item : instance) (owner : value)
| ERemove (item : instance)
| EImport (params : value)
| EConsoleError (err : error)
| ENext (err : error)
| ERespond (view : string) (data : value) (path : value).

(** The steps that can change the database: a statement sent with
    [client.query], and the calls of the services that write. *)
Definition mutating (e : event) : bool :=
  match e with
  | EQuery _ | EDeleteComparisons _ | EMove _ _ | ERemove _ | EImport _ => true
  | _ => false
  end.

(** A run of a handler, or of a part of one: how it ended, the store it
    left and the events it produced, in order. *)
Record run (A : Type) : Type := {
  res : result A;
  final : store;
  events : list event
}.
Arguments res {A} r.
Arguments final {A} r.
Arguments events {A} r.

Definition H (A : Type) : Type := store -> run A.

Definition hret {A} (a : A) : H A :=
  fun st => {| res := Ok a; final := st; events := [] |}.

Definition hfail {A} (err : error) : H A :=
  fun st => {| res := Fail err; final := st; events := [] |}.

Definition hbind {A B} (m : H A) (k : A -> H B) : H B :=
  fun st =>
    let r := m st in
    match res r with
    | Ok a =>
        let r' := k a (final r) in
        {| res := res r'; final := final r';
           events := events r ++ events r' |}
    | Fail err =>
        {| res := Fail err; final := final r; events := events r |}
    end.

Notation "x <- m ;; k" := (hbind m (fun x => k))
  (at level 100, m at next level, right associativity).
Notation "m ;;; k" := (hbind m (fun _ => k))
  (at level 100, right associativity).

(** An awaited call of a service, or any other observable step. *)
Definition call {A} (e : event) (r : result A) : H A :=
  fun st => {| res := r; final := st; events := [e] |}.

Definition emit (e : event) : H unit := call e (Ok tt).

(** A computation on the entities of [construct.services.js]. *)
Definition entity {A} (m : M A) : H A :=
  fun st =>
    let r := m st in
    {| res := match fst r with
              | Ret a => Ok a
              | Throw e => Fail (Thrown e)
              end;
       final := snd r; events := [] |}.

Definition value_of (o : outcome value) : H value :=
  match o with
  | Ret v => hret v
  | Throw e => hfail (Thrown e)
  end.

(** [try { body } catch (err) { handler }] *)
Definition try_catch {A} (body : H A) (handler : error -> H A) : H A :=
  fun st =>
    let r := body st in
    match res r with
    | Ok a => r
    | Fail err =>
        let r' := handler err (final r) in
        {| res := res r'; final := final r';
           events := events r ++ events r' |}
    end.

(** [try { body } finally { finalizer }] *)
Definition try_finally {A} (body : H A) (finalizer : H unit) : H A :=
  fun st =>
    let r := body st in
    let r' := finalizer (final r) in
    {| res := match res r' with
              | Ok _ => res r
              | Fail err => Fail err
              end;
       final := final r';
       events := events r ++ events r' |}.

Definition next (err : error) : H unit := emit (ENext err).

(** [const {k = dflt} = v || {}] *)
Definition field_or (v : value) (k : string) (dflt : value) : value :=
  match get_prop (if truthy v then v else VObj []) k with
  | VUndefined => dflt
  | x => x
  end.

(** [s === v] and [v !== s] for a string [s]. *)
Definition is_string (s : string) (v : value) : bool :=
  match v with
  | VStr s' => String.eqb s s'
  | _ => false
  end.

(** [Array.isArray(v) && v.length > 0] *)
Definition nonempty_array (v : value) : bool :=
  match v with
  | VArr (_ :: _) => true
  | _ => false
  end.

(** [v[k] = x] on a value [v]; the module is in strict mode. A named
    property put on an array is not represented. *)
Definition set_prop (v : value) (k : string) (x : value) : outcome value :=
  match v with
  | VObj ps => Ret (VObj (assoc_set k x ps))
  | VArr l => Ret (VArr l)
  | _ => Throw TypeError
  end.

(** The controller of one node type: [new ModelController(nodeType)]
    after [init], which built the constructor [Model] over one schema
    object and the instance [model = new Model()]. *)
Variable nodeType : string.
Variable sch : schema.
Variable svc : services.

Definition Model (attributeValues : value) : M instance :=
  construct genLabel nodeType sch attributeValues.

Definition model : instance := this_of genLabel nodeType sch VUndefined.

(** [this.getId(req)], on [req.params], whose names are those of the
    route. *)
Definition getId (params : value) : outcome value :=
  if is_nullish params then Throw TypeError
  else if has_own params (key model)
  then match to_string (get_prop params (key model)) with
       | Ret s => Ret (VNum (str_parseInt s))
       | Throw e => Throw e
       end
  else Ret VNull.

(** The frame shared by the handlers:
    [const client = await pool.connect();
     try { body } catch (err) { console.error(err); return next(err); }
     finally { await client.release(true); }] *)
Definition with_client (body : H unit) : H unit :=
  call EConnect (pool_connect svc) ;;;
  try_finally
    (try_catch body (fun err => emit (EConsoleError err) ;;; next err))
    (call ERelease (client_release svc)).

(** One dependent of [show]: its own dependents and attached metadata are
    fetched and stored on it. The dependents are taken one after the
    other; under [Promise.all] the code starts the lookup of every
    dependent before it awaits any, and goes on with the others when one
    fails, so that the order of these events in a run of [show], and
    their number after a failure, can differ from the ones given here.
    Which services are called does not. *)
Definition expand_dependent (dependent : value) : H value :=
  let nd := field_or dependent "node" (VObj []) in
  id <- value_of (get_member nd "id") ;;
  deps <- call (ESelectByOwner id) (nserve_selectByOwner svc id) ;;
  d1 <- value_of (set_prop dependent "dependents" deps) ;;
  att <- call (EGetAttached nd) (metaserve_getAttachedByNode svc nd) ;;
  value_of (set_prop d1 "attached" att).

Fixpoint expand_all (ds : list value) : H (list value) :=
  match ds with
  | [] => hret []
  | d :: ds' =>
      d' <- expand_dependent d ;;
      rest <- expand_all ds' ;;
      hret (d' :: rest)
  end.

(** [this.show]; [show_body] is its [try] block, and likewise for the
    handlers below. *)
Definition show_body (params : value) : H unit :=
  id <- value_of (getId params) ;;
  itemData <- call (EGet id nodeType) (nserve_get svc id nodeType) ;;
  let type := field_or itemData "type" (VStr "") in
  if negb (truthy itemData) || negb (is_string nodeType type)
  then next (Error "notFound")
  else
    let nd := get_prop itemData "node" in
    path <- call (EGetPath nd) (nserve_getPath svc nd) ;;
    itemData1 <-
      (if match depth model with Some d => (1 <? d)%Z | None => false end
       then
         match get_prop itemData "dependents" with
         | VArr ds =>
             ds' <- expand_all ds ;;
             value_of (set_prop itemData "dependents" (VArr ds'))
         | _ => hfail (Thrown TypeError)
         end
       else hret itemData) ;;
    let nd1 := get_prop itemData1 "node" in
    att <- call (EGetAttached nd1) (metaserve_getAttachedByNode svc nd1) ;;
    itemData2 <- value_of (set_prop itemData1 "attached" att) ;;
    emit (ERespond "show" itemData2 path).

Definition show (params : value) : H unit := with_client (show_body params).

(** [this.edit] *)
Definition edit_body (params : value) : H unit :=
  id <- value_of (getId params) ;;
  itemData <- call (EGet id nodeType) (nserve_get svc id nodeType) ;;
  let type := field_or itemData "type" (VStr "") in
  if negb (truthy itemData) || negb (is_string nodeType type)
  then next (Error "notFound")
  else
    owner <- call (ESelect id) (nserve_select svc id) ;;
    path0 <- call (EGetPath owner) (nserve_getPath svc owner) ;;
    let path := if truthy path0 then path0 else VObj [] in
    emit (ERespond "edit" itemData path).

Definition edit (params : value) : H unit := with_client (edit_body params).

(** [this.create], the steps of the handler itself. The callback that
    it hands to the importer is not part of them: the importer calls it
    when it has read the request, after the handler has sent [COMMIT],
    and the callback then inserts the record and answers the request on
    its own ([next(err)] or a response). *)
Definition create (params : value) : H unit :=
  call EConnect (pool_connect svc) ;;;
  try_finally
    (try_catch
       (call (EQuery "BEGIN") (client_query svc "BEGIN") ;;;
        let owner_id := field_or params "owner_id" VNull in
        owner <- call (ESelect owner_id) (nserve_select svc owner_id) ;;
        if negb (truthy owner) && negb (isRoot model)
        then next (Error "invalidRequest")
        else
          call (EImport params) (importer_receive svc params) ;;;
          call (EQuery "COMMIT") (client_query svc "COMMIT"))
       (fun err =>
          call (EQuery "ROLLBACK") (client_query svc "ROLLBACK") ;;;
          emit (EConsoleError err) ;;;
          next err))
    (call ERelease (client_release svc)).

(** [this.move] *)
Definition move_body (params : value) : H unit :=
  id <- value_of (getId params) ;;
  let owner_id := field_or params "owner_id" VNull in
  itemData <- call (EGet id nodeType) (nserve_get svc id nodeType) ;;
  ownerData <- call (ESelect owner_id) (nserve_select svc owner_id) ;;
  let type := field_or itemData "type" (VStr "") in
  let status := field_or itemData "status" (VStr "") in
  let nd := field_or itemData "node" VUndefined in
  if negb (truthy ownerData) || negb (truthy itemData)
     || negb (is_string nodeType type)
  then next (Error "notFound")
  else
    comparisons <- call (EGetComparisons nd)
                        (getComparisonsMetadata svc nd) ;;
    isMoveable <- call (EIsRelatable id owner_id)
                       (isRelatable svc id owner_id) ;;
    if nonempty_array comparisons
    then next (Error "restrictedByComparisons")
    else if negb (truthy isMoveable)
    then next (Error "invalidMove")
    else if negb (is_string "unsorted" status)
            && negb (is_string "sorted" status)
            && negb (is_string "missing" status)
    then next (Error "invalidMove")
    else
      let metadata := field_or itemData "metadata" (VObj []) in
      item <- entity (Model metadata) ;;
      result <- call (EMove item ownerData) (mserve_move svc item ownerData) ;;
      if negb (truthy result)
      then next (Error "invalidRequest")
      else emit (ERespond "show" itemData VUndefined).

Definition move (params : value) : H unit := with_client (move_body params).

(** [this.remove]. The attribute object that [item.node] returns has no
    [owner_id] property, so the owner is looked up with [null]. *)
Definition remove_body (params : value) : H unit :=
  id <- value_of (getId params) ;;
  itemData <- call (EGet id nodeType) (nserve_get svc id nodeType) ;;
  let type := field_or itemData "type" (VStr "") in
  let nd := field_or itemData "node" VUndefined in
  if negb (truthy itemData) || negb (is_string nodeType type)
  then next (Error "notFound")
  else if negb (truthy itemData)
  then next (Error "notFound")
  else if truthy (get_prop itemData "hasDependents")
  then next (Error "23503")
  else
    comparisons <- call (EGetComparisons nd)
                        (getComparisonsMetadata svc nd) ;;
    (if nonempty_array comparisons
     then call (EDeleteComparisons nd) (deleteComparisons svc nd)
     else hret tt) ;;;
    item <- entity (Model (get_prop itemData "metadata")) ;;
    _ <- entity (node sch item) ;;
    let owner_id := VNull in
    owner <- call (ESelect owner_id) (nserve_select svc owner_id) ;;
    path <- call (EGetPath owner) (nserve_getPath svc owner) ;;
    call (ERemove item) (mserve_remove svc item) ;;;
    emit (ERespond "remove" itemData path).

Definition remove (params : value) : H unit :=
  with_client (remove_body params).

End Controller.

Arguments res {BI A} r.
Arguments final {BI A} r.
Arguments events {BI A} r.

(** ** Sample data

    Numbers restricted to the integers, with [None] for [NaN], and a
    small schema, store and set of services on which the definitions
    above can be run. *)

Module Sample.

Definition digit (c : ascii) : option Z :=
  let n := nat_of_ascii c in
  if (48 <=? n)%nat && (n <=? 57)%nat then Some (Z.of_nat (n - 48)) else None.

Fixpoint digits (s : string) (acc : option Z) : option Z :=
  match s with
  | EmptyString => acc
  | String c s' =>
      match digit c with
      | Some d =>
          digits s' (Some (10 * match acc with Some a => a | None => 0 end
                           + d)%Z)
      | None => acc
      end
  end.

Definition parse (s : string) : option Z :=
  match s with
  | String "-"%char s' => option_map Z.opp (digits s' None)
  | String "+"%char s' => digits s' None
  | _ => digits s None
  end.

Definition quote : string := String (ascii_of_nat 34) EmptyString.

#[export] Instance integers : Builtins := {|
  number := option Z;
  num_truthy := fun n => match n with
                         | Some z => negb (z =? 0)%Z
                         | None => false
                         end;
  num_isNaN := fun n => match n with Some _ => false | None => true end;
  num_isFinite := fun n => match n with Some _ => true | None => false end;
  num_toString := fun n => match n with
                           | Some z => pretty z
                           | None => "NaN"
                           end;
  num_of_nat := fun n => Some (Z.of_nat n);
  str_parseInt := parse;
  str_parseFloat := parse;
  json_quote := fun s => quote +:+ s +:+ quote
|}.

Definition label_of (modelType : string) (_ : value) : string := modelType.

Definition column (k type : string) : string * attribute :=
  (k, {| attr_value := VNull; attr_key := k; attr_label := humanize k;
         attr_type := type; attr_data := VUndefined |}).

(** The attribute table of [stations]. *)
Definition stations_table : list (string * attribute) :=
  [column "nodes_id" "integer";
   column "name" "varying character";
   column "description" "text";
   column "elev" "double precision"].

Definition stations_schema : schema :=
  {| schema_idKey := Some "nodes_id";
     schema_attributes := 0%nat;
     schema_rootNodeTypes := ["projects"; "surveyors"; "map_objects"];
     schema_nodeDepth := [("default", 2%Z); ("stations", 3%Z)];
     schema_fsRoot := [("projects", "Projects"); ("surveyors", "Surveyors")] |}.

Definition store0 : store :=
  {| heap := [CAttrs stations_table]; console := [] |}.

Definition station : instance :=
  this_of label_of "stations" stations_schema VUndefined.

Definition station_input : value :=
  VObj [("name", VStr "TEST"); ("bogus", VStr "1")].

Definition blank_description : value :=
  VObj [("description", VStr "")].

(** A stored capture and the services that answer for it. *)
Definition num (z : Z) : value := VNum (Some z).

Definition capture_node (status : string) : value :=
  VObj [("id", num 7); ("type", VStr "modern_captures");
        ("owner_id", num 3); ("status", VStr status)].

Definition capture (status : string) (hasDependents : bool) : value :=
  VObj [("type", VStr "modern_captures");
        ("status", VStr status);
        ("node", capture_node status);
        ("hasDependents", VBool hasDependents);
        ("metadata", VObj [("nodes_id", num 7)]);
        ("label", VStr "Capture 7")].

Definition location : value :=
  VObj [("id", num 3); ("type", VStr "locations")].

Definition comparison : value :=
  VObj [("historic_captures", num 11); ("modern_captures", num 7)].

Definition captures_schema : schema :=
  {| schema_idKey := Some "nodes_id";
     schema_attributes := 0%nat;
     schema_rootNodeTypes := ["projects"; "surveyors"; "map_objects"];
     schema_nodeDepth := [("default", 1%Z)];
     schema_fsRoot := [] |}.

Definition captures_store : store :=
  {| heap := [CAttrs [column "nodes_id" "integer";
                      column "fn_photo_reference" "varying character"]];
     console := [] |}.

(** Services over a database that holds [item] under every id, with the
    comparisons [cmps], and in which [mserve.move] ends as [moved]. *)
Definition database (item : value) (cmps : list value)
    (relatable : bool) (moved : result value) : services :=
  {| pool_connect := Ok tt;
     client_query := fun _ => Ok tt;
     client_release := Ok tt;
     nserve_get := fun _ _ => Ok item;
     nserve_select := fun _ => Ok location;
     nserve_getPath := fun _ => Ok (VObj []);
     nserve_selectByOwner := fun _ => Ok (VArr []);
     metaserve_getAttachedByNode := fun _ => Ok (VObj []);
     getComparisonsMetadata := fun _ => Ok (VArr cmps);
     isRelatable := fun _ _ => Ok (VBool relatable);
     deleteComparisons := fun _ => Ok tt;
     mserve_move := fun _ _ => moved;
     mserve_remove := fun _ => Ok tt;
     importer_receive := fun _ => Ok tt |}.

Definition request : value :=
  VObj [("modern_captures_id", VStr "7"); ("owner_id", VStr "3")].

Definition station_request : value := VObj [("stations_id", VStr "7")].

(** The instance that [move] and [remove] build from the stored
    metadata. *)
Definition capture_item : instance :=
  this_of label_of "modern_captures" captures_schema
    (VObj [("nodes_id", num 7)]).

(** An unsorted capture without comparisons or dependents, whose move
    fails in the database. *)
Definition failing : services :=
  database (capture "unsorted" false) [] true
    (Fail (Error "deadlock detected")).

(** An unsorted capture in one comparison. *)
Definition compared : services :=
  database (capture "unsorted" false) [comparison] true (Ok (VBool true)).

(** A capture that has been mastered. *)
Definition mastered : services :=
  database (capture "masterable" false) [] true (Ok (VBool true)).

(** A capture with dependents. *)
Definition owning : services :=
  database (capture "unsorted" true) [] true (Ok (VBool true)).

End Sample.

(** ** Vocabulary of the properties *)

Section Vocabulary.
Context `{BI : Builtins}.

(** The attribute table held at a location, with its keys. *)
Definition table_at (st : store) (l : loc) (ks : list string) : Prop :=
  exists table, heap st !! l = Some (CAttrs table) /\ keys table = ks.

(** The value held for a key of a table, and the record that [getData]
    builds from a table. *)
Definition value_at (table : list (string * attribute)) (k : string) : value :=
  match assoc k table with
  | Some a => attr_value a
  | None => VUndefined
  end.

Definition gather (table : list (string * attribute)) (ks : list string)
    (o : list (string * value)) : list (string * value) :=
  fold_left (fun o k => assoc_set k (value_at table k) o) ks o.

(** Every event of a computation satisfies [P], from any store. *)
Definition emits {A} (P : event -> Prop) (m : H A) : Prop :=
  forall st, List.Forall P (events (m st)).

(** [BEGIN], [COMMIT], [ROLLBACK] and any other statement that the
    handler itself sends with [client.query]. *)
Definition is_query (e : event) : bool :=
  match e with
  | EQuery _ => true
  | _ => false
  end.

(** An operation rejected with [new Error(msg)] before any statement that
    changes the database. *)
Definition rejected_before_mutation (msg : string) (tr : list event) : Prop :=
  In (ENext (Error msg)) tr /\ List.Forall (fun e => mutating e = false) tr.

(** An operation whose handler begins a transaction as soon as it holds
    a client, before any read or write. *)
Definition in_transaction (tr : list event) : bool :=
  match tr with
  | EConnect :: EQuery sql :: _ => String.eqb sql "BEGIN"
  | _ => false
  end.

(** An operation in which every failure caught by the handler (it is
    logged with [console.error] before it is handed to [next]) comes
    after a [ROLLBACK] sent by the handler; [seen] tells whether one has
    been sent. *)
Fixpoint rolled_back (seen : bool) (tr : list event) : bool :=
  match tr with
  | [] => true
  | EQuery sql :: tr' => rolled_back (seen || String.eqb sql "ROLLBACK") tr'
  | EConsoleError _ :: tr' => seen && rolled_back seen tr'
  | _ :: tr' => rolled_back seen tr'
  end.

(** The calls that are handed the client of the handler: whatever the
    called service sends goes over the connection that the handler
    holds. ([nserve.getPath] and [importer.receive] are not handed
    it.) *)
Definition handed_client (e : event) : bool :=
  match e with
  | EGet _ _ | ESelect _ | ESelectByOwner _ | EGetAttached _
  | EGetComparisons _ | EIsRelatable _ _ | EDeleteComparisons _
  | EMove _ _ | ERemove _ => true
  | _ => false
  end.

(** What goes over the connection during a run: the steps of the handler
    and, with each call that is handed the client, the statements that
    the called service sends on it until it resolves or rejects. The
    services are not part of the sources; [sends] stands for what they
    send. *)
Inductive packet : Type :=
| Step (e : event)
| Sent (sql : string).

Definition wire (sends : event -> list string) (tr : list event)
  : list packet :=
  flat_map (fun e => Step e :: (if handed_client e
                                then map Sent (sends e) else []))
           tr.

(** A statement that the handler itself sends. *)
Definition own_statement (p : packet) : bool :=
  match p with
  | Step e => is_query e
  | Sent _ => false
  end.

End Vocabulary.

(** ** More of [data.utils.js] *)

Section MoreUtilities.
Context `{BI : Builtins}.

(** One step of the [reduce] in [groupBy]:
    [(rv[x[key]] = rv[x[key]] || []).push(x); return rv].
    The name of the group is the string of [x[key]], where [x[key]]
    prints. A name inherited from [Object.prototype] is truthy and has no
    [push]. The value [x[key]] is read with [get_prop]: a [key] that the
    row inherits is not represented. *)
Definition group_name (x : value) (key : string) : string :=
  toString (get_prop x key).

Definition group_step (key : string) (rv : list (string * list value))
    (x : value) : outcome (list (string * list value)) :=
  if is_nullish x then Throw TypeError
  else if negb (printable (get_prop x key)) then Throw TypeError
  else
    let g := group_name x key in
    match assoc g rv with
    | Some rows => Ret (assoc_set g (rows ++ [x]) rv)
    | None =>
        if existsb (String.eqb g) prototype_names then Throw TypeError
        else Ret (assoc_set g [x] rv)
    end.

Fixpoint group_rows (key : string) (rv : list (string * list value))
    (rows : list value) : outcome (list (string * list value)) :=
  match rows with
  | [] => Ret rv
  | x :: rows' =>
      match group_step key rv x with
      | Ret rv' => group_rows key rv' rows'
      | Throw e => Throw e
      end
  end.

(** [groupBy(arr, key)]. The result is [null], or an object that holds
    one array for each group; the order of the groups in the object is
    not used below. *)
Definition groupBy (arr : value) (key : string) : outcome value :=
  match arr with
  | VUndefined | VNull => Ret VNull
  | VArr rows =>
      match group_rows key [] rows with
      | Ret rv => Ret (VObj (map (fun g => (fst g, VArr (snd g))) rv))
      | Throw e => Throw e
      end
  | _ => Throw TypeError
  end.

(** Whether [/<[^>]+>/] matches somewhere in a string. *)
Fixpoint matches_tag (s : string) : bool :=
  match s with
  | EmptyString => false
  | String c s' => (Ascii.eqb c lt && opens_tag s') || matches_tag s'
  end.

(** What follows the first [>] of a string. *)
Fixpoint after_gt (s : string) : string :=
  match s with
  | EmptyString => EmptyString
  | String c s' => if Ascii.eqb c gt then s' else after_gt s'
  end.

Definition contains (c : ascii) (s : string) : bool :=
  existsb (Ascii.eqb c) (list_ascii_of_string s).

Definition no_upper (s : string) : bool :=
  forallb (fun c => negb (is_upper c)) (list_ascii_of_string s).

End MoreUtilities.

(** ** More of [construct.services.js] *)

Section Accessors.
Context `{BI : Builtins}.

(** The getter of [id]:
    [schema.idKey && this.attributes[schema.idKey].value || ''] *)
Definition get_id (sch : schema) (this : instance) : M value :=
  match schema_idKey sch with
  | None => ret (VStr "")
  | Some k =>
      if String.eqb k "" then ret (VStr "")
      else bind (read_value (attributes this) k)
                (fun v => ret (if truthy v then v else VStr ""))
  end.

(** The setter of [id]:
    [this.attributes[schema.idKey || 'unknown'].value = id] *)
Definition id_key (sch : schema) : string :=
  match schema_idKey sch with
  | None => "unknown"
  | Some k => if String.eqb k "" then "unknown" else k
  end.

Definition set_id (sch : schema) (this : instance) (id : value) : M unit :=
  assign_value (attributes this) (id_key sch) (fun _ => Ret id).

(** The getter of [owner]: the attribute object of [owner_id], or
    [null]. *)
Definition owner (sch : schema) (this : instance) : M (option attribute) :=
  bind (hasAttribute sch "owner_id")
       (fun has =>
          if has then
            bind (read_cell (attributes this))
                 (fun c =>
                    bind (lift (cell_get c "owner_id"))
                         (fun s => ret (match s with
                                        | SAttr a => Some a
                                        | _ => None
                                        end)))
          else ret None).

(** The setter of [owner]: a number or a string is stored, after
    [sanitize(id)] with no type; anything else is ignored. *)
Definition set_owner (this : instance) (id : value) : M unit :=
  match id with
  | VNum _ | VStr _ =>
      bind (read_cell (attributes this))
           (fun c =>
              match c with
              | None => throw TypeError
              | Some _ =>
                  if cell_has c "owner_id"
                  then assign_value (attributes this) "owner_id"
                         (fun _ => sanitize id "undefined")
                  else ret tt
              end)
  | _ => ret tt
  end.

(** The label of a node as a directory name, in [createNode]:
    [label.replace(' ', '_').replace(/[^a-z0-9_-]/gi, '')]. A string
    pattern replaces its first occurrence only. *)
Definition is_digit (c : ascii) : bool :=
  (48 <=? nat_of_ascii c)%nat && (nat_of_ascii c <=? 57)%nat.

Definition is_safe (c : ascii) : bool :=
  is_lower c || is_upper c || is_digit c
  || Ascii.eqb c "_"%char || Ascii.eqb c "-"%char.

Fixpoint replace_first_space (s : string) : string :=
  match s with
  | EmptyString => EmptyString
  | String c s' =>
      if Ascii.eqb c " "%char then String "_"%char s'
      else String c (replace_first_space s')
  end.

Fixpoint keep_safe (s : string) : string :=
  match s with
  | EmptyString => EmptyString
  | String c s' =>
      if is_safe c then String c (keep_safe s') else keep_safe s'
  end.

Definition slug (label : string) : string :=
  keep_safe (replace_first_space label).

(** What [assign_value] makes of a table when every write goes
    through. *)
Definition write_value (rhs : string -> string -> outcome value)
    (table : list (string * attribute)) (k : string)
  : list (string * attribute) :=
  match assoc k table with
  | Some a =>
      match rhs k (attr_type a) with
      | Ret v => assoc_set k (with_value a v) table
      | Throw _ => table
      end
  | None => table
  end.

End Accessors.

(** ** More of [model.controller.js] *)

Section MoreController.
Context `{BI : Builtins}.
Variable genLabel : string -> value -> string.
Variables (nodeType : string) (sch : schema) (svc : services).

(** [this.add] and its [try] block. *)
Definition add_body (params : value) : H unit :=
  let owner_id := field_or params "owner_id" (VNum (num_of_nat 0)) in
  hbind (entity (if truthy owner_id
                 then Model genLabel nodeType sch
                        (VObj [("owner_id", owner_id)])
                 else Model genLabel nodeType sch VUndefined))
    (fun item =>
  hbind (value_of (sanitize owner_id "integer"))
    (fun oid =>
  hbind (call (ESelect oid) (nserve_select svc oid))
    (fun owner =>
  hbind (call (EGetPath owner) (nserve_getPath svc owner))
    (fun path0 =>
  let path := if truthy path0 then path0 else VObj [] in
  hbind (entity (getData item []))
    (fun data => emit (ERespond "new" data path)))))).

Definition add (params : value) : H unit :=
  with_client svc (add_body params).

(** The number of answers in a run: calls of [next] and responses. *)
Definition is_answer (e : event) : bool :=
  match e with
  | ENext _ | ERespond _ _ _ => true
  | _ => false
  end.

Definition answers (tr : list event) : nat :=
  length (List.filter is_answer tr).

(** A part of a handler that answers as its last step, if it ends. *)
Definition answers_last (m : H unit) : Prop :=
  forall st,
    answers (events (m st))
    = match res (m st) with Ok _ => 1%nat | Fail _ => 0%nat end.

(** The handlers that run their [try] block under [with_client]. *)
Definition handlers : list (value -> H unit) :=
  [show genLabel nodeType sch svc; add;
   edit genLabel nodeType sch svc; move genLabel nodeType sch svc;
   remove genLabel nodeType sch svc].

End MoreController.

(** ** Vocabulary of the further properties *)

Section MoreVocabulary.
Context `{BI : Builtins}.

(** A row that [groupBy] can take: neither [null] nor [undefined], with
    a group name that [Object.prototype] does not define. *)
Definition groupable (key : string) (x : value) : bool :=
  negb (is_nullish x)
  && negb (existsb (String.eqb (group_name x key)) prototype_names).

Definition rows_of (g : string) (rv : list (string * list value))
  : list value :=
  match assoc g rv with
  | Some rows => rows
  | None => []
  end.

Definition in_group (key g : string) (x : value) : bool :=
  String.eqb (group_name x key) g.

(** A row that [groupBy] files under a name: a record that is groupable
    and whose value under [key] prints. (Of an array, a string or a
    number [x[key]] can be an inherited method, which [get_prop] does
    not read.) *)
Definition plain_row (key : string) (x : value) : bool :=
  match x with
  | VObj _ => groupable key x && printable (get_prop x key)
  | _ => false
  end.

(** A type name that the table of sanitizers does not inherit from
    [Object.prototype]: for the inherited ones [sanitizers[datatype]] is
    not the default sanitizer. *)
Definition own_type (ty : string) : bool :=
  negb (existsb (String.eqb ty) prototype_names).

(** Whether [sanitize] makes a string of [data] for the type [ty]: the
    text types and the number types always do, the composite type does
    for an array. *)
Definition read_as_string (ty : string) (data : value) : bool :=
  String.eqb ty "varying character" || String.eqb ty "text"
  || String.eqb ty "integer" || String.eqb ty "double precision"
  || String.eqb ty "float"
  || (String.eqb ty "USER-DEFINED"
      && match data with VArr _ => true | _ => false end).

(** The attribute that a write leaves. *)
Definition written (rhs : string -> string -> outcome value) (k : string)
    (a : attribute) : attribute :=
  match rhs k (attr_type a) with
  | Ret v => with_value a v
  | Throw _ => a
  end.

End MoreVocabulary.

(** ** More sample data *)

Module MoreSample.
Import Sample.

(** The rows of the example given with [groupBy]. *)
Definition person (id : Z) (name : string) : value :=
  VObj [("id", num id); ("name", VStr name)].

Definition people : list value :=
  [person 1 "John"; person 2 "John"; person 3 "Jane"].

(** A table with an owner, and the schema of a model without an id
    key. *)
Definition visits_table : list (string * attribute) :=
  [column "nodes_id" "integer"; column "owner_id" "integer";
   column "date" "text"].

Definition visits_schema : schema :=
  {| schema_idKey := Some "nodes_id";
     schema_attributes := 0%nat;
     schema_rootNodeTypes := ["projects"; "surveyors"; "map_objects"];
     schema_nodeDepth := [("default", 2%Z)];
     schema_fsRoot := [] |}.

Definition keyless_schema : schema :=
  {| schema_idKey := None;
     schema_attributes := 0%nat;
     schema_rootNodeTypes := [];
     schema_nodeDepth := [("default", 2%Z)];
     schema_fsRoot := [] |}.

Definition visits_store : store :=
  {| heap := [CAttrs visits_table]; console := [] |}.

Definition visit : instance :=
  this_of label_of "modern_visits" visits_schema VUndefined.


(** A date with markup, as a form sends it, and as it is stored. *)
Definition markup : value := VStr "<i>1923</i> (July)".

Definition plain : value := VStr "1923 (July)".

Definition visit_input : value :=
  VObj [("date", markup); ("bogus", VStr "1")].

(** The result of a query with two rows. *)
Definition query_result : list (string * value) :=
  [("rows", VArr [VObj [("date", VStr "1923")];
                  VObj [("date", VStr "1931")]]);
   ("rowCount", num 2)].

(** Services over a database in which [nserve.get] resolves to [item]
    and [nserve.select] to [owner], behind a pool that answers a
    checkout with [checkout]. *)
Definition backend (checkout : result unit) (item owner : value)
  : services :=
  {| pool_connect := checkout;
     client_query := fun _ => Ok tt;
     client_release := Ok tt;
     nserve_get := fun _ _ => Ok item;
     nserve_select := fun _ => Ok owner;
     nserve_getPath := fun _ => Ok (VArr [owner]);
     nserve_selectByOwner := fun _ => Ok (VArr []);
     metaserve_getAttachedByNode := fun _ => Ok (VObj []);
     getComparisonsMetadata := fun _ => Ok (VArr []);
     isRelatable := fun _ _ => Ok (VBool true);
     deleteComparisons := fun _ => Ok tt;
     mserve_move := fun _ _ => Ok (VBool true);
     mserve_remove := fun _ => Ok tt;
     importer_receive := fun _ => Ok tt |}.

(** No client to hand out. *)
Definition exhausted : services :=
  backend (Fail (Error "timeout exceeded")) (capture "unsorted" false)
    location.

(** The capture is stored, and so is its owner. *)
Definition stored : services :=
  backend (Ok tt) (capture "unsorted" false) location.

(** Nothing is stored under the id. *)
Definition vacant : services := backend (Ok tt) VNull location.

(** The owner named by the request does not exist. *)
Definition orphaned : services :=
  backend (Ok tt) (capture "unsorted" false) VNull.


(** The capture is in one comparison, which [deleteComparisons] deletes;
    [mserve.remove] then fails in the database. *)
Definition jammed : services :=
  {| pool_connect := Ok tt;
     client_query := fun _ => Ok tt;
     client_release := Ok tt;
     nserve_get := fun _ _ => Ok (capture "unsorted" false);
     nserve_select := fun _ => Ok location;
     nserve_getPath := fun _ => Ok (VArr [location]);
     nserve_selectByOwner := fun _ => Ok (VArr []);
     metaserve_getAttachedByNode := fun _ => Ok (VObj []);
     getComparisonsMetadata := fun _ => Ok (VArr [comparison]);
     isRelatable := fun _ _ => Ok (VBool true);
     deleteComparisons := fun _ => Ok tt;
     mserve_move := fun _ _ => Ok (VBool true);
     mserve_remove := fun _ => Fail (Error "deadlock detected");
     importer_receive := fun _ => Ok tt |}.

(** Services that put each their own statements in a transaction of
    their own on the client that they are handed, the way [update] of
    the file services does. *)
Definition own_transactions (e : event) : list string :=
  match e with
  | EDeleteComparisons _ => ["BEGIN"; "DELETE FROM comparisons"; "COMMIT"]
  | ERemove _ => ["BEGIN"; "DELETE FROM nodes"; "ROLLBACK"]
  | EMove _ _ => ["BEGIN"; "UPDATE nodes"; "COMMIT"]
  | _ => ["SELECT"]
  end.

(** Form fields with an empty field [rows], and with a field
    [hasOwnProperty]. *)
Definition empty_rows_input : value :=
  VObj [("rows", VStr ""); ("name", VStr "TEST"); ("bogus", VStr "1")].

(** A value that does not print. *)
Definition unprintable : value := VObj [("toString", num 1)].

End MoreSample.


(** * Properties *)

(** ** Association lists *)

Section AssocFacts.
Context {A : Type}.
Implicit Types (o : list (string * A)) (k : string) (x : A).

Lemma has_key_In k o : has_key k o = true <-> In k (keys o).
Proof.
  unfold has_key, keys. induction o as [|[k' y] o IH]; simpl.
  - split; [discriminate | tauto].
  - destruct (String.eqb_spec k k') as [->|Hne].
    + split; auto.
    + rewrite IH. split; [auto | intros [H|H]; [congruence | exact H]].
Qed.

Lemma has_key_not_In k o : has_key k o = false <-> ~ In k (keys o).
Proof.
  rewrite <- has_key_In. destruct (has_key k o); split; congruence.
Qed.

Lemma keys_assoc_set_present k x o :
  has_key k o = true -> keys (assoc_set k x o) = keys o.
Proof.
  unfold has_key, keys. induction o as [|[k' y] o IH]; simpl.
  - discriminate.
  - destruct (String.eqb k k'); simpl; [reflexivity|].
    intros H. now rewrite IH.
Qed.

Lemma keys_assoc_set_absent k x o :
  has_key k o = false -> keys (assoc_set k x o) = keys o ++ [k].
Proof.
  unfold has_key, keys. induction o as [|[k' y] o IH]; simpl.
  - reflexivity.
  - destruct (String.eqb k k'); simpl; [discriminate|].
    intros H. now rewrite IH.
Qed.

Lemma assoc_set_same k x o : assoc k (assoc_set k x o) = Some x.
Proof.
  induction o as [|[k' y] o IH]; simpl.
  - now rewrite String.eqb_refl.
  - destruct (String.eqb k k') eqn:E; simpl; rewrite E; auto.
Qed.

Lemma assoc_set_other k k' x o :
  k <> k' -> assoc k' (assoc_set k x o) = assoc k' o.
Proof.
  intros Hne. induction o as [|[k0 y] o IH]; simpl.
  - destruct (String.eqb_spec k' k); congruence.
  - destruct (String.eqb_spec k k0) as [->|Hk]; simpl.
    + destruct (String.eqb_spec k' k0); congruence.
    + now rewrite IH.
Qed.

Lemma In_keys_assoc_set k k' x o :
  In k' (keys (assoc_set k x o)) <-> k' = k \/ In k' (keys o).
Proof.
  destruct (has_key k o) eqn:E.
  - rewrite keys_assoc_set_present by exact E.
    apply has_key_In in E. split; [auto | intros [->|H]; auto].
  - rewrite keys_assoc_set_absent by exact E.
    rewrite in_app_iff. simpl. intuition congruence.
Qed.

End AssocFacts.

(** ** Entities *)

Section ConstructFacts.
Context `{BI : Builtins}.

Lemma write_cell_lookup (st : store) (l : loc) (c c' : cell) :
  heap st !! l = Some c ->
  heap (snd (write_cell l c' st)) !! l = Some c'.
Proof.
  intros H. simpl. apply list_lookup_insert_eq.
  eapply lookup_lt_Some. exact H.
Qed.

(** Writing a value never changes the keys of the table, whether the
    right-hand side raises or not, and prints nothing. *)
Lemma assign_value_keeps st l ks k rhs :
  table_at st l ks ->
  table_at (snd (assign_value l k rhs st)) l ks
  /\ console (snd (assign_value l k rhs st)) = console st.
Proof.
  intros (table & Hl & Hk).
  unfold assign_value, bind, read_cell, lift. simpl. rewrite Hl. simpl.
  destruct (assoc k table) as [a|] eqn:Ha; simpl.
  - destruct (rhs (attr_type a)) as [v|e]; simpl.
    + split; [|reflexivity].
      exists (assoc_set k (with_value a v) table). split.
      * apply list_lookup_insert_eq. eapply lookup_lt_Some. exact Hl.
      * rewrite keys_assoc_set_present; [exact Hk|].
        unfold has_key. now rewrite Ha.
    + split; [exists table; auto | reflexivity].
  - split; [exists table; auto | reflexivity].
Qed.

Lemma for_each_assign_keeps (rhs : string -> string -> outcome value) l ks :
  forall (todo : list string) st,
    table_at st l ks ->
    table_at (snd (for_each (fun k => assign_value l k (rhs k)) todo st)) l ks
    /\ console (snd (for_each (fun k => assign_value l k (rhs k)) todo st))
       = console st.
Proof.
  induction todo as [|k todo IH]; intros st Hst; simpl.
  - auto.
  - unfold bind.
    destruct (assign_value_keeps st l ks k (rhs k) Hst) as [Ht Hc].
    destruct (assign_value l k (rhs k) st) as [[[]|e] st1]; simpl in *.
    + destruct (IH st1 Ht) as [Ht' Hc']. split; [exact Ht' | congruence].
    + auto.
Qed.

Lemma for_each_warn (f : string -> string) (todo : list string) st :
  for_each (fun k => console_warn (f k)) todo st
  = (Ret tt, {| heap := heap st; console := console st ++ map f todo |}).
Proof.
  revert st. induction todo as [|k todo IH]; intros st; simpl.
  - rewrite app_nil_r. now destruct st.
  - unfold bind, console_warn at 1. rewrite IH. simpl.
    now rewrite <- app_assoc.
Qed.

(** [setData] leaves the keys of the attribute table as they were. *)
Lemma setData_keeps this data st ks :
  table_at st (attributes this) ks ->
  table_at (snd (setData this data st)) (attributes this) ks.
Proof.
  intros Hst. unfold setData.
  destruct (is_object data); [|exact Hst].
  unfold bind, lift, read_cell. simpl.
  destruct (select_input data) as [inputData|e]; simpl; [|exact Hst].
  destruct (object_keys inputData) as [ks0|e]; simpl; [|exact Hst].
  rewrite for_each_warn. simpl.
  apply (for_each_assign_keeps
           (fun k => sanitize (get_prop inputData k))).
  destruct Hst as (table & Hl & Hk). exists table. auto.
Qed.

(** The warnings of [setData]: one for each key of the input that the
    table lacks, in the order of the input. *)
Lemma setData_console this data st table inputData ks :
  heap st !! attributes this = Some (CAttrs table) ->
  is_object data = true ->
  select_input data = Ret inputData ->
  object_keys inputData = Ret ks ->
  console (snd (setData this data st))
  = console st
      ++ map (fun k => warning k (name this))
             (List.filter (fun k => negb (has_key k table)) ks).
Proof.
  intros Hl Hobj Hin Hks. unfold setData. rewrite Hobj.
  unfold bind, lift, read_cell. simpl. rewrite Hin. simpl.
  rewrite Hks. simpl. rewrite for_each_warn. simpl. rewrite Hl.
  match goal with
  | |- console (snd (for_each ?f ?todo ?s)) = _ =>
      pose proof (for_each_assign_keeps
                    (fun k => sanitize (get_prop inputData k))
                    (attributes this) (keys table) todo s) as Hkeep
  end.
  destruct Hkeep as [_ Hc]; [exists table; auto|].
  simpl in Hc. exact Hc.
Qed.

Lemma collect_table st l table :
  heap st !! l = Some (CAttrs table) ->
  forall ks o,
    (forall k, In k ks -> In k (keys table)) ->
    collect l ks o st = (Ret (gather table ks o), st).
Proof.
  intros Hl. induction ks as [|k ks IH]; intros o Hin; simpl.
  - reflexivity.
  - assert (Hk : In k (keys table)) by (apply Hin; now left).
    apply has_key_In in Hk. unfold has_key in Hk.
    unfold bind at 1, read_value, bind, read_cell, lift. simpl.
    rewrite Hl. simpl.
    destruct (assoc k table) as [a|] eqn:Ha; [|discriminate]. simpl.
    rewrite IH by (intros k' Hk'; apply Hin; now right).
    unfold gather. simpl.
    replace (value_at table k) with (attr_value a)
      by (unfold value_at; now rewrite Ha).
    reflexivity.
Qed.

Lemma keys_gather table ks :
  forall o, List.NoDup (keys o ++ ks) -> keys (gather table ks o) = keys o ++ ks.
Proof.
  unfold gather. induction ks as [|k ks IH]; intros o Hnd; simpl.
  - now rewrite app_nil_r.
  - assert (Hk : has_key k o = false).
    { apply has_key_not_In. intros Hk.
      apply NoDup_remove_2 in Hnd. apply Hnd. apply in_or_app. now left. }
    rewrite IH.
    + rewrite keys_assoc_set_absent by exact Hk. now rewrite <- app_assoc.
    + rewrite keys_assoc_set_absent by exact Hk. now rewrite <- app_assoc.
Qed.

Lemma In_keys_gather table ks k :
  forall o, In k (keys (gather table ks o)) <-> In k ks \/ In k (keys o).
Proof.
  unfold gather. induction ks as [|k0 ks IH]; intros o; simpl.
  - tauto.
  - rewrite IH, In_keys_assoc_set. intuition congruence.
Qed.

Lemma assoc_gather_other table ks k :
  forall o, ~ In k ks -> assoc k (gather table ks o) = assoc k o.
Proof.
  unfold gather. induction ks as [|k0 ks IH]; intros o Hk; simpl.
  - reflexivity.
  - simpl in Hk. rewrite IH by tauto.
    apply assoc_set_other. intros ->. tauto.
Qed.

Lemma assoc_gather table ks k :
  forall o, In k ks -> assoc k (gather table ks o) = Some (value_at table k).
Proof.
  induction ks as [|k0 ks IH]; intros o Hin.
  - destruct Hin.
  - change (gather table (k0 :: ks) o)
      with (gather table ks (assoc_set k0 (value_at table k0) o)).
    destruct (in_dec string_dec k ks) as [Hk|Hk]; [now apply IH|].
    destruct Hin as [->|Hin]; [|contradiction].
    rewrite assoc_gather_other by exact Hk. apply assoc_set_same.
Qed.

(** [getData()] on an instance that holds an attribute table. *)
Lemma filter_none (ks : list string) :
  List.filter (fun k : string => negb (existsb (String.eqb k) [])) ks = ks.
Proof. induction ks as [|k ks IH]; simpl in *; congruence. Qed.

Lemma getData_table this st table :
  heap st !! attributes this = Some (CAttrs table) ->
  getData this [] st = (Ret (VObj (gather table (keys table) [])), st).
Proof.
  intros Hl. unfold getData, bind, read_cell, lift.
  cbv beta iota. rewrite Hl. cbv beta iota delta [cell_keys].
  rewrite filter_none. erewrite collect_table; eauto.
Qed.

Lemma assign_value_table st l table k a rhs v :
  heap st !! l = Some (CAttrs table) ->
  assoc k table = Some a ->
  rhs (attr_type a) = Ret v ->
  assign_value l k rhs st
  = (Ret tt,
     {| heap := <[l := CAttrs (assoc_set k (with_value a v) table)]> (heap st);
        console := console st |}).
Proof.
  intros Hl Ha Hr. unfold assign_value, bind, read_cell, lift.
  cbv beta iota. rewrite Hl. cbn [cell_get]. rewrite Ha. cbv beta iota.
  rewrite Hr. reflexivity.
Qed.

Lemma setData_table this data st table inputData ks :
  heap st !! attributes this = Some (CAttrs table) ->
  is_object data = true ->
  select_input data = Ret inputData ->
  object_keys inputData = Ret ks ->
  setData this data st
  = for_each (fun k => assign_value (attributes this) k
                         (sanitize (get_prop inputData k)))
             (List.filter (fun k => has_key k table) ks)
             {| heap := heap st;
                console := console st
                  ++ map (fun k => warning k (name this))
                         (List.filter (fun k => negb (has_key k table)) ks) |}.
Proof.
  intros Hl Hobj Hin Hks. unfold setData. rewrite Hobj.
  unfold bind, lift, read_cell. cbv beta iota. rewrite Hin. cbv beta iota.
  rewrite Hks. cbv beta iota. rewrite for_each_warn. cbv beta iota.
  cbn [heap]. rewrite Hl. reflexivity.
Qed.

Lemma construct_attributes genLabel modelType sch d st this st' :
  construct genLabel modelType sch d st = (Ret this, st') ->
  attributes this = schema_attributes sch
  /\ st' = snd (setData (this_of genLabel modelType sch d) d st).
Proof.
  unfold construct, bind, ret.
  destruct (setData (this_of genLabel modelType sch d) d st) as [[[]|e] s1];
    intros H; inversion H; subst; auto.
Qed.

Lemma addAttribute_table this st table nm type v :
  heap st !! attributes this = Some (CAttrs table) ->
  exists a,
    addAttribute this nm type v st
    = (Ret tt,
       {| heap := <[attributes this := CAttrs (assoc_set nm a table)]> (heap st);
          console := console st |}).
Proof.
  intros Hl. unfold addAttribute, bind, read_cell. cbv beta iota.
  rewrite Hl. eexists. reflexivity.
Qed.

Lemma hasAttribute_table sch st table nm :
  heap st !! schema_attributes sch = Some (CAttrs table) ->
  hasAttribute sch nm st = (Ret (has_key nm table), st).
Proof.
  intros Hl. unfold hasAttribute, bind, read_cell. cbv beta iota.
  rewrite Hl. reflexivity.
Qed.

Lemma for_each_assign_null l ks :
  forall (todo : list string) st,
    table_at st l ks ->
    (forall k, In k todo -> In k ks) ->
    fst (for_each (fun k => assign_value l k (fun _ => Ret VNull)) todo st)
    = Ret tt.
Proof.
  induction todo as [|k todo IH]; intros st Hst Hin; simpl.
  - reflexivity.
  - unfold bind.
    pose proof (assign_value_keeps st l ks k (fun _ => Ret VNull) Hst)
      as [Ht _].
    destruct Hst as (table & Hl & Hk).
    assert (Hk' : has_key k table = true).
    { apply has_key_In. rewrite Hk. apply Hin. now left. }
    unfold has_key in Hk'.
    destruct (assoc k table) as [a|] eqn:Ha; [|discriminate].
    pose proof (assign_value_table st l table k a (fun _ => Ret VNull) VNull
                  Hl Ha eq_refl) as E.
    rewrite E in Ht |- *. cbn [fst snd] in Ht |- *.
    apply IH; [exact Ht|]. intros k' Hk''. apply Hin. now right.
Qed.

End ConstructFacts.

(** ** Properties of the entities *)

Section EntityProperties.
Context `{BI : Builtins}.

(** C6. For every instance that holds the attribute table of its schema
    and every input passed to [setData]: the keys of the table are the
    same afterwards, so no key of the input that the schema lacks is
    stored; [getData()] then returns a record with exactly the keys of the
    schema; and, for an input whose [hasOwnProperty] is the inherited
    method, one warning is printed for each key of the input that the
    schema lacks. The first two hold whether [setData] returns or
    raises. An input that owns a property [hasOwnProperty] is left out
    of the third: on it the code raises a [TypeError] at
    [data.hasOwnProperty('rows')], before any warning. So does it, and
    this is the fourth part, on an input whose [rows] has no first
    entry (an empty array, an empty string): the keys that the schema
    lacks are then neither warned of nor ignored, the call fails. *)
Theorem setData_keeps_exactly_the_schema_keys
    (this : instance) (data : value) (st : store)
    (table : list (string * attribute)) :
  heap st !! attributes this = Some (CAttrs table) ->
  List.NoDup (keys table) ->
  let st' := snd (setData this data st) in
  (exists table',
      heap st' !! attributes this = Some (CAttrs table')
      /\ keys table' = keys table)
  /\ (exists o,
         getData this [] st' = (Ret (VObj o), st') /\ keys o = keys table)
  /\ (forall inputData ks,
         is_object data = true ->
         inherits_hasOwnProperty data = true ->
         select_input data = Ret inputData ->
         object_keys inputData = Ret ks ->
         console st'
         = console st
             ++ map (fun k => warning k (name this))
                    (List.filter (fun k => negb (has_key k table)) ks))
  /\ (forall qs r,
         data = VObj qs ->
         assoc "rows" qs = Some r ->
         is_nullish r = true \/ is_nullish (get_prop r "0") = true ->
         setData this data st = (Throw TypeError, st)).
Proof.
  intros Hl Hnd st'.
  assert (Hkeep : table_at st' (attributes this) (keys table)).
  { apply setData_keeps. exists table. auto. }
  destruct Hkeep as (table' & Hl' & Hk').
  split; [exists table'; auto|]. split; [|split].
  - exists (gather table' (keys table') []). split.
    + now apply getData_table.
    + rewrite keys_gather; simpl; congruence.
  - intros inputData ks Hobj _ Hin Hks.
    now apply setData_console with (inputData := inputData).
  - intros qs r -> Hq Hr. unfold setData. cbn [is_object].
    assert (Hown : has_own (VObj qs) "rows" = true).
    { unfold has_own, has_key. cbn [entries]. now rewrite Hq. }
    assert (Hget : get_prop (VObj qs) "rows" = r).
    { unfold get_prop. cbn [entries]. now rewrite Hq. }
    unfold bind, lift, select_input. rewrite Hown, Hget.
    unfold get_member. destruct (is_nullish r) eqn:Hn; [reflexivity|].
    destruct Hr as [Hr|Hr]; [discriminate|].
    unfold object_keys. now rewrite Hr.
Qed.

(** C7. The sanitizer of a [text] or [varying character] attribute maps
    the empty string to the empty string, not to [null]: after
    [setData({k: ''})] on such an attribute [k], [getData()] holds [''] for
    [k]. (The key [rows] is left out: [setData] reads an input with that
    key as a result set.) *)
Theorem empty_text_is_stored_as_empty_string
    (this : instance) (st : store) (table : list (string * attribute))
    (k : string) (a : attribute) :
  heap st !! attributes this = Some (CAttrs table) ->
  assoc k table = Some a ->
  attr_type a = "text" \/ attr_type a = "varying character" ->
  k <> "rows" ->
  sanitize (VStr "") (attr_type a) = Ret (VStr "")
  /\ let st' := snd (setData this (VObj [(k, VStr "")]) st) in
     exists o,
       getData this [] st' = (Ret (VObj o), st')
       /\ assoc k o = Some (VStr "").
Proof.
  intros Hl Ha Hty Hrows.
  assert (Hs : sanitize (VStr "") (attr_type a) = Ret (VStr "")).
  { destruct Hty as [-> | ->]; reflexivity. }
  split; [exact Hs|]. intros st'.
  assert (Hst' : heap st' !! attributes this
                 = Some (CAttrs (assoc_set k (with_value a (VStr "")) table))).
  { assert (Hhas : has_key k table = true)
      by (unfold has_key; now rewrite Ha).
    assert (Hget : get_prop (VObj [(k, VStr "")]) k = VStr "")
      by (unfold get_prop; simpl; now rewrite String.eqb_refl).
    assert (Hown : has_own (VObj [(k, VStr "")]) "rows" = false).
    { unfold has_own, has_key, entries.
      change (assoc "rows" [(k, VStr "")])
        with (if String.eqb "rows" k then Some (VStr "") else None).
      destruct (String.eqb_spec "rows" k); [congruence | reflexivity]. }
    subst st'.
    rewrite setData_table
      with (table := table) (inputData := VObj [(k, VStr "")]) (ks := [k]);
      [ | exact Hl | reflexivity
        | unfold select_input; now rewrite Hown | reflexivity ].
    cbn [List.filter]. rewrite Hhas. cbn [for_each]. unfold bind.
    erewrite assign_value_table;
      [ | exact Hl | exact Ha | rewrite Hget; exact Hs ].
    cbn [ret snd heap].
    apply list_lookup_insert_eq. eapply lookup_lt_Some. exact Hl. }
  eexists. split; [apply getData_table; exact Hst'|].
  rewrite assoc_gather.
  - unfold value_at. now rewrite assoc_set_same.
  - apply has_key_In. unfold has_key. now rewrite assoc_set_same.
Qed.

(** C8. Two instances built by one constructor share the attribute table
    of its schema: a name that neither the schema nor the second instance
    has before [addAttribute] is called on the first instance is an
    attribute of the schema, and a key of the second instance's
    [getData()], after the call. *)
Theorem addAttribute_changes_the_shared_schema
    (genLabel : string -> value -> string) (modelType : string) (sch : schema)
    (d1 d2 : value) (st st1 st2 : store) (this1 this2 : instance)
    (table : list (string * attribute)) (nm type : string) (v : value) :
  heap st !! schema_attributes sch = Some (CAttrs table) ->
  ~ In nm (keys table) ->
  construct genLabel modelType sch d1 st = (Ret this1, st1) ->
  construct genLabel modelType sch d2 st1 = (Ret this2, st2) ->
  let st3 := snd (addAttribute this1 nm type v st2) in
  hasAttribute sch nm st2 = (Ret false, st2)
  /\ hasAttribute sch nm st3 = (Ret true, st3)
  /\ (exists o,
         getData this2 [] st2 = (Ret (VObj o), st2) /\ ~ In nm (keys o))
  /\ (exists o,
         getData this2 [] st3 = (Ret (VObj o), st3) /\ In nm (keys o)).
Proof.
  intros Hl Hnm H1 H2 st3.
  apply construct_attributes in H1 as [A1 E1].
  apply construct_attributes in H2 as [A2 E2].
  assert (T1 : table_at st1 (schema_attributes sch) (keys table)).
  { subst st1. apply (setData_keeps (this_of genLabel modelType sch d1)).
    exists table. auto. }
  assert (T2 : table_at st2 (schema_attributes sch) (keys table)).
  { subst st2. apply (setData_keeps (this_of genLabel modelType sch d2)).
    exact T1. }
  destruct T2 as (table2 & Hl2 & Hk2).
  assert (Hno : has_key nm table2 = false).
  { apply has_key_not_In. now rewrite Hk2. }
  destruct (addAttribute_table this1 st2 table2 nm type v) as [a Ha];
    [now rewrite A1|].
  assert (Hl3 : heap st3 !! schema_attributes sch
                = Some (CAttrs (assoc_set nm a table2))).
  { subst st3. rewrite Ha. cbn [snd heap]. rewrite A1.
    apply list_lookup_insert_eq. eapply lookup_lt_Some. exact Hl2. }
  split; [|split; [|split]].
  - rewrite (hasAttribute_table _ _ _ _ Hl2). now rewrite Hno.
  - rewrite (hasAttribute_table _ _ _ _ Hl3).
    unfold has_key. now rewrite assoc_set_same.
  - eexists. split; [apply getData_table; rewrite A2; exact Hl2|].
    rewrite In_keys_gather. simpl. rewrite Hk2. tauto.
  - eexists. split; [apply getData_table; rewrite A2; exact Hl3|].
    rewrite In_keys_gather. left. apply In_keys_assoc_set. now left.
Qed.

(** C9. For every name that is not a key of the instance's attribute
    table, [getValue(name)] returns [null] and [setValue(name, value)]
    returns without a change to the store; neither raises. *)
Theorem unknown_attribute_is_ignored
    (this : instance) (st : store) (table : list (string * attribute))
    (nm : string) (v : value) :
  heap st !! attributes this = Some (CAttrs table) ->
  ~ In nm (keys table) ->
  getValue this nm st = (Ret VNull, st)
  /\ setValue this nm v st = (Ret tt, st).
Proof.
  intros Hl Hnm. apply has_key_not_In in Hnm.
  split.
  - unfold getValue. destruct (String.eqb nm ""); [reflexivity|].
    unfold bind, read_cell. cbv beta iota. rewrite Hl.
    cbn [cell_has]. now rewrite Hnm.
  - unfold setValue, bind, read_cell. cbv beta iota. rewrite Hl.
    cbn [cell_has]. now rewrite Hnm.
Qed.

(** C10. On an instance with a non-empty attribute table, [getData()]
    returns a record, [clear()] returns, and afterwards [this.attributes]
    is no table but an array of undefined entries, one for each key, on
    which [getData()] raises a [TypeError]. *)
Theorem clear_breaks_getData
    (this : instance) (st : store) (table : list (string * attribute)) :
  heap st !! attributes this = Some (CAttrs table) ->
  table <> [] ->
  (exists o, getData this [] st = (Ret (VObj o), st))
  /\ exists this' st',
       clear this st = (Ret this', st')
       /\ heap st' !! attributes this' = Some (CArray (length table) [])
       /\ getData this' [] st' = (Throw TypeError, st').
Proof.
  intros Hl Hne. split; [eexists; apply getData_table; exact Hl|].
  unfold clear, bind, read_cell, lift. cbv beta iota. rewrite Hl.
  cbn [cell_keys].
  pose proof (for_each_assign_null (attributes this) (keys table)
                (keys table) st) as Hok.
  destruct (for_each
              (fun k => assign_value (attributes this) k (fun _ => Ret VNull))
              (keys table) st) as [[[]|e] st1] eqn:Hrun.
  2: { exfalso. cbn [fst] in Hok.
       assert (Throw e = Ret tt) by (apply Hok; [exists table|]; auto).
       discriminate. }
  clear Hok. unfold alloc_cell, ret. cbv beta iota.
  do 2 eexists. split; [reflexivity|].
  cbn [attributes with_attributes heap]. split.
  - unfold keys. rewrite length_map. now apply list_lookup_middle.
  - unfold getData, bind, read_cell, lift. cbv beta iota.
    cbn [attributes with_attributes heap].
    rewrite list_lookup_middle by reflexivity.
    cbn [cell_keys keys map]. rewrite app_nil_r, filter_none.
    destruct table as [|[k a] table]; [congruence|].
    cbn [keys map length index_keys seq collect].
    unfold bind, read_value, bind, read_cell, lift. cbv beta iota.
    cbn [heap]. rewrite list_lookup_middle by reflexivity.
    cbn [cell_get index_keys seq map existsb].
    rewrite String.eqb_refl. reflexivity.
Qed.

End EntityProperties.

(** The properties above on the sample schema of [stations]. *)

Lemma stations_keys_distinct : List.NoDup (keys Sample.stations_table).
Proof.
  repeat constructor; simpl; intuition discriminate.
Defined.

Lemma setData_keeps_exactly_the_schema_keys_witness :
  (let st' := snd (setData Sample.station Sample.station_input
                     Sample.store0) in
   exists o,
     getData Sample.station [] st' = (Ret (VObj o), st')
     /\ keys o = ["nodes_id"; "name"; "description"; "elev"])
  /\ setData Sample.station MoreSample.empty_rows_input Sample.store0
     = (Throw TypeError, Sample.store0).
Proof.
  split.
  - exact (proj1 (proj2 (setData_keeps_exactly_the_schema_keys
                           Sample.station Sample.station_input Sample.store0
                           Sample.stations_table eq_refl
                           stations_keys_distinct))).
  - exact (proj2 (proj2 (proj2 (setData_keeps_exactly_the_schema_keys
                                  Sample.station MoreSample.empty_rows_input
                                  Sample.store0 Sample.stations_table eq_refl
                                  stations_keys_distinct)))
             _ (VStr "") eq_refl eq_refl (or_intror eq_refl)).
Defined.

Lemma empty_text_is_stored_as_empty_string_witness :
  let st' := snd (setData Sample.station Sample.blank_description
                    Sample.store0) in
  exists o,
    getData Sample.station [] st' = (Ret (VObj o), st')
    /\ assoc "description" o = Some (VStr "").
Proof.
  refine (proj2 (empty_text_is_stored_as_empty_string
                   Sample.station Sample.store0 Sample.stations_table
                   "description" (snd (Sample.column "description" "text"))
                   eq_refl eq_refl (or_introl eq_refl) _)).
  discriminate.
Defined.

Lemma addAttribute_changes_the_shared_schema_witness :
  let st3 := snd (addAttribute Sample.station "fs_path" "text" VUndefined
                    Sample.store0) in
  hasAttribute Sample.stations_schema "fs_path" Sample.store0
  = (Ret false, Sample.store0)
  /\ hasAttribute Sample.stations_schema "fs_path" st3 = (Ret true, st3).
Proof.
  pose proof (addAttribute_changes_the_shared_schema
                Sample.label_of "stations" Sample.stations_schema
                VUndefined VUndefined
                Sample.store0 Sample.store0 Sample.store0
                Sample.station Sample.station
                Sample.stations_table "fs_path" "text" VUndefined
                eq_refl) as H.
  refine ((fun H' => conj (proj1 H') (proj1 (proj2 H')))
            (H _ eq_refl eq_refl)).
  simpl. intuition discriminate.
Defined.

Lemma unknown_attribute_is_ignored_witness :
  getValue Sample.station "bogus" Sample.store0 = (Ret VNull, Sample.store0)
  /\ setValue Sample.station "bogus" (VStr "1") Sample.store0
     = (Ret tt, Sample.store0).
Proof.
  apply (unknown_attribute_is_ignored
           Sample.station Sample.store0 Sample.stations_table); [reflexivity|].
  simpl. intuition discriminate.
Defined.

Lemma clear_breaks_getData_witness :
  exists this' st',
    clear Sample.station Sample.store0 = (Ret this', st')
    /\ heap st' !! attributes this' = Some (CArray 4 [])
    /\ getData this' [] st' = (Throw TypeError, st').
Proof.
  apply (proj2 (clear_breaks_getData
                  Sample.station Sample.store0 Sample.stations_table
                  eq_refl ltac:(discriminate))).
Defined.

(** ** Runs of the handlers *)

Section ControllerFacts.
Context `{BI : Builtins}.

Lemma falsy_has_no_type (v : value) :
  truthy v = false -> get_prop v "type" = VUndefined.
Proof.
  destruct v as [| |b|n|s|l|ps]; simpl; try discriminate; try reflexivity.
  destruct s; [reflexivity | discriminate].
Qed.

Lemma typed_is_truthy (v : value) (ty : string) :
  get_prop v "type" = VStr ty -> truthy v = true.
Proof.
  intros H. destruct (truthy v) eqn:E; [reflexivity|].
  rewrite falsy_has_no_type in H by exact E. discriminate.
Qed.

Lemma field_or_present (v : value) (k : string) (d x : value) :
  truthy v = true -> get_prop v k = x -> x <> VUndefined ->
  field_or v k d = x.
Proof.
  intros Ht Hg Hx. unfold field_or. rewrite Ht, Hg.
  destruct x; congruence.
Qed.

Lemma is_string_same (s : string) : is_string s (VStr s) = true.
Proof. apply String.eqb_refl. Qed.

Lemma is_string_other (s : string) (v : value) :
  v <> VStr s -> is_string s v = false.
Proof.
  intros H. destruct v; try reflexivity. simpl.
  destruct (String.eqb_spec s s0); congruence.
Qed.

(** How the events, the result and the final store of a composed run
    follow from those of its parts. *)
Lemma events_hbind {A B} (m : H A) (k : A -> H B) st :
  events (hbind m k st)
  = events (m st)
      ++ match res (m st) with
         | Ok a => events (k a (final (m st)))
         | Fail _ => []
         end.
Proof.
  unfold hbind. destruct (res (m st)); simpl; [reflexivity|].
  now rewrite app_nil_r.
Qed.

Lemma res_hbind {A B} (m : H A) (k : A -> H B) st :
  res (hbind m k st)
  = match res (m st) with
    | Ok a => res (k a (final (m st)))
    | Fail err => Fail err
    end.
Proof. unfold hbind. now destruct (res (m st)). Qed.

Lemma final_hbind {A B} (m : H A) (k : A -> H B) st :
  final (hbind m k st)
  = match res (m st) with
    | Ok a => final (k a (final (m st)))
    | Fail _ => final (m st)
    end.
Proof. unfold hbind. now destruct (res (m st)). Qed.

Lemma events_try_catch {A} (body : H A) (handler : error -> H A) st :
  events (try_catch body handler st)
  = events (body st)
      ++ match res (body st) with
         | Ok _ => []
         | Fail err => events (handler err (final (body st)))
         end.
Proof.
  unfold try_catch. destruct (res (body st)); simpl; [|reflexivity].
  now rewrite app_nil_r.
Qed.

Lemma events_try_finally {A} (body : H A) (finalizer : H unit) st :
  events (try_finally body finalizer st)
  = events (body st) ++ events (finalizer (final (body st))).
Proof. reflexivity. Qed.

Lemma events_call {A} (e : event) (r : result A) st :
  events (call e r st) = [e].
Proof. reflexivity. Qed.

Lemma res_call {A} (e : event) (r : result A) st : res (call e r st) = r.
Proof. reflexivity. Qed.

Lemma final_call {A} (e : event) (r : result A) st :
  final (call e r st) = st.
Proof. reflexivity. Qed.

Lemma events_value_of (o : outcome value) st : events (value_of o st) = [].
Proof. now destruct o. Qed.

Lemma res_value_of (o : outcome value) st :
  res (value_of o st)
  = match o with Ret v => Ok v | Throw e => Fail (Thrown e) end.
Proof. now destruct o. Qed.

Lemma final_value_of (o : outcome value) st : final (value_of o st) = st.
Proof. now destruct o. Qed.

Lemma events_entity {A} (m : M A) st : events (entity m st) = [].
Proof. reflexivity. Qed.

(** Composition keeps what holds of every event. *)
Lemma emits_hbind {A B} (P : event -> Prop) (m : H A) (k : A -> H B) :
  emits P m -> (forall a, emits P (k a)) -> emits P (hbind m k).
Proof.
  intros Hm Hk st. rewrite events_hbind. apply Forall_app. split.
  - apply Hm.
  - destruct (res (m st)); [apply Hk | constructor].
Qed.

Lemma emits_call {A} (P : event -> Prop) (e : event) (r : result A) :
  P e -> emits P (call e r).
Proof. intros He st. simpl. now repeat constructor. Qed.

Lemma emits_hret {A} (P : event -> Prop) (a : A) : emits P (hret a).
Proof. intros st. constructor. Qed.

Lemma emits_hfail {A} (P : event -> Prop) (err : error) :
  emits P (@hfail _ A err).
Proof. intros st. constructor. Qed.

Lemma emits_value_of (P : event -> Prop) (o : outcome value) :
  emits P (value_of o).
Proof. intros st. rewrite events_value_of. constructor. Qed.

Lemma emits_entity {A} (P : event -> Prop) (m : M A) : emits P (entity m).
Proof. intros st. constructor. Qed.

Variable genLabel : string -> value -> string.
Variables (nodeType : string) (sch : schema) (svc : services).

Lemma emits_with_client (P : event -> Prop) (body : H unit) :
  P EConnect -> P ERelease ->
  (forall err, P (EConsoleError err)) -> (forall err, P (ENext err)) ->
  emits P body -> emits P (with_client svc body).
Proof.
  intros Hc Hr Hl Hn Hb. unfold with_client.
  apply emits_hbind; [now apply emits_call|]. intros _ st.
  rewrite events_try_finally, events_try_catch, events_call.
  repeat (apply Forall_app; split); try apply Hb.
  - destruct (res (body st)); [constructor|].
    apply emits_hbind; [now apply emits_call|].
    intros _. now apply emits_call.
  - now repeat constructor.
Qed.

(** A handler run under [with_client] when the pool hands out a client. *)
Lemma events_with_client (body : H unit) st :
  pool_connect svc = Ok tt ->
  events (with_client svc body st)
  = EConnect
      :: events (body st)
      ++ match res (body st) with
         | Ok _ => []
         | Fail err => [EConsoleError err; ENext err]
         end
      ++ [ERelease].
Proof.
  intros Hc. unfold with_client.
  rewrite events_hbind, events_call, res_call, Hc, final_call.
  rewrite events_try_finally, events_try_catch, events_call.
  destruct (res (body st)); simpl; now rewrite <- ?app_assoc.
Qed.

Ltac run :=
  repeat first
    [ rewrite events_hbind | rewrite res_hbind | rewrite final_hbind
    | rewrite events_call | rewrite res_call | rewrite final_call
    | rewrite events_value_of | rewrite res_value_of
    | rewrite final_value_of
    | rewrite events_entity
    | match goal with
      | H : field_or _ _ _ = _ |- _ => rewrite H
      | H : _ = Ok _ |- _ => rewrite H
      | H : _ = Ret _ |- _ => rewrite H
      | H : _ = true |- _ => rewrite H
      | H : _ = false |- _ => rewrite H
      end
    | progress cbv beta iota zeta
    | progress cbn [negb orb andb app]
    | progress unfold next, emit ].

(** One case for every way a handler can go on. *)
Ltac quiet :=
  unfold next, emit;
  repeat first
    [ apply emits_hbind; [|intros ?]
    | apply emits_call; reflexivity
    | apply emits_hret
    | apply emits_hfail
    | apply emits_value_of
    | apply emits_entity
    | match goal with
      | |- emits _ (if ?c then _ else _) => destruct c
      | |- emits _ (match ?x with _ => _ end) => destruct x
      end
    | progress cbv zeta ].

(** Neither [move] nor [remove] sends a statement of its own with
    [client.query]. *)
Lemma move_sends_no_query params :
  emits (fun e => is_query e = false) (move genLabel nodeType sch svc params).
Proof.
  unfold move. apply emits_with_client; try reflexivity.
  unfold move_body. quiet.
Qed.

Lemma remove_sends_no_query params :
  emits (fun e => is_query e = false)
        (remove genLabel nodeType sch svc params).
Proof.
  unfold remove. apply emits_with_client; try reflexivity.
  unfold remove_body. quiet.
Qed.

Lemma no_query_no_transaction (tr : list event) :
  List.Forall (fun e => is_query e = false) tr -> in_transaction tr = false.
Proof.
  intros Hq. destruct tr as [|e1 [|e2 tr]]; try reflexivity.
  - now destruct e1.
  - inversion Hq as [|? ? _ Hq']; subst.
    inversion Hq' as [|? ? Hb _]; subst.
    destruct e1; try reflexivity. now destruct e2.
Qed.

(** [create], for comparison, begins a transaction once it holds the
    client and rolls it back before it hands on whatever its [try] block
    raised. *)
Lemma create_runs_in_a_transaction params st :
  pool_connect svc = Ok tt ->
  in_transaction (events (create genLabel nodeType sch svc params st)) = true
  /\ rolled_back false (events (create genLabel nodeType sch svc params st))
     = true.
Proof.
  intros Hc. unfold create.
  rewrite events_hbind, events_call, res_call, Hc, final_call.
  rewrite events_try_finally, events_try_catch, events_call.
  run. split; [reflexivity|].
  destruct (client_query svc "BEGIN") as [[]|e0]; run;
    [ destruct (nserve_select svc (field_or params "owner_id" VNull))
        as [owner|e1]; run;
      [ destruct (negb (truthy owner)
                  && negb (isRoot (model genLabel nodeType sch))); run;
        [ reflexivity
        | destruct (importer_receive svc params) as [[]|e2]; run;
          [ destruct (client_query svc "COMMIT") as [[]|e3]; run;
            [ reflexivity | ] | ] ] | ] | ];
    destruct (client_query svc "ROLLBACK") as [[]|e4]; run; reflexivity.
Qed.

(** The events of a handler are those of its [try] block between the
    checkout and the release of the client; a failure of the block is
    logged and handed to [next] in between. *)
Lemma events_move params st :
  pool_connect svc = Ok tt ->
  events (move genLabel nodeType sch svc params st)
  = EConnect
      :: events (move_body genLabel nodeType sch svc params st)
      ++ match res (move_body genLabel nodeType sch svc params st) with
         | Ok _ => []
         | Fail err => [EConsoleError err; ENext err]
         end
      ++ [ERelease].
Proof. apply events_with_client. Qed.

Lemma events_remove params st :
  pool_connect svc = Ok tt ->
  events (remove genLabel nodeType sch svc params st)
  = EConnect
      :: events (remove_body genLabel nodeType sch svc params st)
      ++ match res (remove_body genLabel nodeType sch svc params st) with
         | Ok _ => []
         | Fail err => [EConsoleError err; ENext err]
         end
      ++ [ERelease].
Proof. apply events_with_client. Qed.

Lemma res_entity {A} (m : M A) st :
  res (entity m st)
  = match fst (m st) with Ret a => Ok a | Throw e => Fail (Thrown e) end.
Proof. reflexivity. Qed.

Lemma final_entity {A} (m : M A) st : final (entity m st) = snd (m st).
Proof. reflexivity. Qed.

Lemma node_returns sch0 this st table :
  attributes this = schema_attributes sch0 ->
  heap st !! schema_attributes sch0 = Some (CAttrs table) ->
  exists a, node sch0 this st = (Ret a, st).
Proof.
  intros Ha Hl. unfold node, bind.
  rewrite (hasAttribute_table sch0 st table "nodes_id" Hl).
  destruct (has_key "nodes_id" table); [|eexists; reflexivity].
  unfold read_cell, lift, ret. rewrite Ha, Hl. cbn [cell_get].
  eexists. reflexivity.
Qed.

(** [remove] of a node that is found, with the expected type and without
    dependents, once the comparisons are looked up and, where there are
    some, deleted. *)
Lemma events_remove_found
    params st id itemData comparisons table item st' owner path :
  pool_connect svc = Ok tt ->
  getId genLabel nodeType sch params = Ret id ->
  nserve_get svc id nodeType = Ok itemData ->
  get_prop itemData "type" = VStr nodeType ->
  truthy (get_prop itemData "hasDependents") = false ->
  getComparisonsMetadata svc (field_or itemData "node" VUndefined)
  = Ok comparisons ->
  (nonempty_array comparisons = true ->
   deleteComparisons svc (field_or itemData "node" VUndefined) = Ok tt) ->
  heap st !! schema_attributes sch = Some (CAttrs table) ->
  Model genLabel nodeType sch (get_prop itemData "metadata") st
  = (Ret item, st') ->
  nserve_select svc VNull = Ok owner ->
  nserve_getPath svc owner = Ok path ->
  events (remove genLabel nodeType sch svc params st)
  = [EConnect; EGet id nodeType;
     EGetComparisons (field_or itemData "node" VUndefined)]
      ++ (if nonempty_array comparisons
          then [EDeleteComparisons (field_or itemData "node" VUndefined)]
          else [])
      ++ [ESelect VNull; EGetPath owner; ERemove item]
      ++ match mserve_remove svc item with
         | Ok _ => [ERespond "remove" itemData path]
         | Fail err => [EConsoleError err; ENext err]
         end
      ++ [ERelease].
Proof.
  intros Hc Hid Hget Hty Hdep Hcmp Hdel Hl Hmodel Hsel Hpath.
  pose proof (typed_is_truthy _ _ Hty) as Ht.
  pose proof (field_or_present itemData "type" (VStr "") (VStr nodeType)
                Ht Hty ltac:(discriminate)) as Hf.
  pose proof (is_string_same nodeType) as Hs.
  destruct (construct_attributes _ _ _ _ _ _ _ Hmodel) as [Hattr Hst'].
  assert (Hkeep : table_at st' (schema_attributes sch) (keys table)).
  { rewrite Hst'.
    change (schema_attributes sch)
      with (attributes (this_of genLabel nodeType sch
                          (get_prop itemData "metadata"))).
    apply setData_keeps. now exists table. }
  destruct Hkeep as (table' & Hl' & _).
  destruct (node_returns sch item st' table' Hattr Hl') as [a Hnode].
  rewrite events_remove by exact Hc. unfold remove_body.
  destruct (nonempty_array comparisons) eqn:Hne.
  - specialize (Hdel eq_refl). run.
    rewrite res_entity, final_entity, Hmodel. cbn [fst snd]. run.
    rewrite res_entity, ?final_entity, Hnode. cbn [fst snd]. run.
    destruct (mserve_remove svc item) as [[]|err]; run; reflexivity.
  - clear Hdel. run.
    change (final (hret tt st)) with st.
    change (res (hret tt st)) with (@Ok unit tt).
    change (events (hret tt st)) with (@nil event). run.
    rewrite res_entity, final_entity, Hmodel. cbn [fst snd]. run.
    rewrite res_entity, ?final_entity, Hnode. cbn [fst snd]. run.
    destruct (mserve_remove svc item) as [[]|err]; run; reflexivity.
Qed.

(** On the connection the handler's own statements are its [client.query]
    steps: a run without such a step puts none there. *)
Lemma wire_without_query (sends : event -> list string) (tr : list event) :
  List.Forall (fun e => is_query e = false) tr ->
  existsb own_statement (wire sends tr) = false.
Proof.
  induction 1 as [|e tr He _ IH]; [reflexivity|].
  cbn [wire flat_map]. rewrite existsb_app. fold (wire sends tr).
  rewrite IH, orb_false_r. cbn [existsb own_statement]. rewrite He.
  destruct (handed_client e); [|reflexivity].
  cbn [orb]. induction (sends e) as [|q qs IHq]; [reflexivity|exact IHq].
Qed.

(** ** Properties of the controller *)

(** C1, as amended. When the node is found with the expected type and
    [getComparisonsMetadata] resolves to a non-empty array: [move] hands
    [restrictedByComparisons] to [next] and ends, whatever [isRelatable]
    resolves to, and no statement that changes the database is issued;
    [remove], on a node without dependents, does not reject: its next
    step after the lookup of the comparisons is [deleteComparisons], and
    when that resolves the handler goes on to [mserve.remove] on the
    instance built from the stored metadata and answers with the record,
    or with the failure of [mserve.remove]. When [deleteComparisons]
    itself fails, that failure is what [next] gets. *)
Theorem comparisons_forbid_move_and_are_deleted_by_remove
    params st id itemData comparison comparisons :
  let owner_id := field_or params "owner_id" VNull in
  let nd := field_or itemData "node" VUndefined in
  pool_connect svc = Ok tt ->
  getId genLabel nodeType sch params = Ret id ->
  nserve_get svc id nodeType = Ok itemData ->
  get_prop itemData "type" = VStr nodeType ->
  getComparisonsMetadata svc nd = Ok (VArr (comparison :: comparisons)) ->
  (forall ownerData isMoveable,
      nserve_select svc owner_id = Ok ownerData ->
      truthy ownerData = true ->
      isRelatable svc id owner_id = Ok isMoveable ->
      events (move genLabel nodeType sch svc params st)
      = [EConnect; EGet id nodeType; ESelect owner_id; EGetComparisons nd;
         EIsRelatable id owner_id;
         ENext (Error "restrictedByComparisons"); ERelease]
      /\ rejected_before_mutation "restrictedByComparisons"
           (events (move genLabel nodeType sch svc params st)))
  /\ (truthy (get_prop itemData "hasDependents") = false ->
      match deleteComparisons svc nd with
      | Fail err =>
          events (remove genLabel nodeType sch svc params st)
          = [EConnect; EGet id nodeType; EGetComparisons nd;
             EDeleteComparisons nd; EConsoleError err; ENext err; ERelease]
      | Ok _ =>
          forall table item st' owner path,
            heap st !! schema_attributes sch = Some (CAttrs table) ->
            Model genLabel nodeType sch (get_prop itemData "metadata") st
            = (Ret item, st') ->
            nserve_select svc VNull = Ok owner ->
            nserve_getPath svc owner = Ok path ->
            events (remove genLabel nodeType sch svc params st)
            = [EConnect; EGet id nodeType; EGetComparisons nd;
               EDeleteComparisons nd; ESelect VNull; EGetPath owner;
               ERemove item]
                ++ match mserve_remove svc item with
                   | Ok _ => [ERespond "remove" itemData path]
                   | Fail err => [EConsoleError err; ENext err]
                   end
                ++ [ERelease]
      end).
Proof.
  intros owner_id nd Hc Hid Hget Hty Hcmp. subst owner_id nd.
  pose proof (typed_is_truthy _ _ Hty) as Ht.
  pose proof (field_or_present itemData "type" (VStr "") (VStr nodeType)
                Ht Hty ltac:(discriminate)) as Hf.
  pose proof (is_string_same nodeType) as Hs.
  split.
  - intros ownerData isMoveable Hsel Hown Hrel.
    assert (E : events (move genLabel nodeType sch svc params st)
            = [EConnect; EGet id nodeType;
               ESelect (field_or params "owner_id" VNull);
               EGetComparisons (field_or itemData "node" VUndefined);
               EIsRelatable id (field_or params "owner_id" VNull);
               ENext (Error "restrictedByComparisons"); ERelease]).
    { rewrite events_move by exact Hc. unfold move_body. run. reflexivity. }
    split; [exact E|]. rewrite E. split.
    + simpl. tauto.
    + repeat constructor.
  - intros Hdep.
    destruct (deleteComparisons svc (field_or itemData "node" VUndefined))
      as [[]|err] eqn:Hdel.
    + intros table item st' owner path Hl Hmodel Hown Hpath.
      exact (events_remove_found params st id itemData
               (VArr (comparison :: comparisons)) table item st' owner path
               Hc Hid Hget Hty Hdep Hcmp (fun _ => Hdel) Hl Hmodel Hown
               Hpath).
    + rewrite events_remove by exact Hc. unfold remove_body. run.
      rewrite Hdel. run. reflexivity.
Qed.

(** C2. What [move] and [remove] send on the client that they hold:
    nothing of their own. Each checks one client out, runs its [try]
    block and releases the client on every way out; a failure of the
    block is logged and handed to [next]; no [BEGIN] goes before the
    reads, no [ROLLBACK] before [next(err)], and whatever statement
    crosses the connection is sent by a service during its own call.
    In particular, in a [remove] that deletes comparisons and then
    fails in [mserve.remove], the statements of [deleteComparisons] are
    sent and that call is over before the owner is looked up and
    [mserve.remove] is called, and after the failure the handler sends
    nothing before it hands the error to [next]. *)
Theorem move_and_remove_send_no_statement_of_their_own
    params st (sends : event -> list string) :
  pool_connect svc = Ok tt ->
  (events (move genLabel nodeType sch svc params st)
   = EConnect
       :: events (move_body genLabel nodeType sch svc params st)
       ++ match res (move_body genLabel nodeType sch svc params st) with
          | Ok _ => []
          | Fail err => [EConsoleError err; ENext err]
          end
       ++ [ERelease]
   /\ existsb own_statement
        (wire sends (events (move genLabel nodeType sch svc params st)))
      = false)
  /\ (events (remove genLabel nodeType sch svc params st)
      = EConnect
          :: events (remove_body genLabel nodeType sch svc params st)
          ++ match res (remove_body genLabel nodeType sch svc params st) with
             | Ok _ => []
             | Fail err => [EConsoleError err; ENext err]
             end
          ++ [ERelease]
      /\ existsb own_statement
           (wire sends (events (remove genLabel nodeType sch svc params st)))
         = false)
  /\ (forall id itemData comparison comparisons table item st' owner path
             err,
         let nd := field_or itemData "node" VUndefined in
         getId genLabel nodeType sch params = Ret id ->
         nserve_get svc id nodeType = Ok itemData ->
         get_prop itemData "type" = VStr nodeType ->
         truthy (get_prop itemData "hasDependents") = false ->
         getComparisonsMetadata svc nd
         = Ok (VArr (comparison :: comparisons)) ->
         deleteComparisons svc nd = Ok tt ->
         heap st !! schema_attributes sch = Some (CAttrs table) ->
         Model genLabel nodeType sch (get_prop itemData "metadata") st
         = (Ret item, st') ->
         nserve_select svc VNull = Ok owner ->
         nserve_getPath svc owner = Ok path ->
         mserve_remove svc item = Fail err ->
         wire sends (events (remove genLabel nodeType sch svc params st))
         = [Step EConnect; Step (EGet id nodeType)]
             ++ map Sent (sends (EGet id nodeType))
             ++ [Step (EGetComparisons nd)]
             ++ map Sent (sends (EGetComparisons nd))
             ++ [Step (EDeleteComparisons nd)]
             ++ map Sent (sends (EDeleteComparisons nd))
             ++ [Step (ESelect VNull)]
             ++ map Sent (sends (ESelect VNull))
             ++ [Step (EGetPath owner); Step (ERemove item)]
             ++ map Sent (sends (ERemove item))
             ++ [Step (EConsoleError err); Step (ENext err);
                 Step ERelease]).
Proof.
  intros Hc. split; [split|split; [split|]].
  - now apply events_move.
  - apply wire_without_query, move_sends_no_query.
  - now apply events_remove.
  - apply wire_without_query, remove_sends_no_query.
  - intros id itemData comparison comparisons table item st' owner path err
      nd Hid Hget Hty Hdep Hcmp Hdel Hl Hmodel Hown Hpath Hfail. subst nd.
    rewrite (events_remove_found params st id itemData
               (VArr (comparison :: comparisons)) table item st' owner path
               Hc Hid Hget Hty Hdep Hcmp (fun _ => Hdel) Hl Hmodel Hown
               Hpath).
    rewrite Hfail. cbn [nonempty_array app wire flat_map handed_client].
    rewrite <- ?app_assoc. reflexivity.
Qed.

(** C3. When the node is found with the expected type, the owner is found,
    the comparisons are not a non-empty array and [isRelatable] resolves,
    a status other than [unsorted], [sorted] and [missing] makes [move]
    hand [invalidMove] to [next] and end: [mserve.move] is not called and
    no statement that changes the database is issued. *)
Theorem locked_status_forbids_move
    params st id itemData ownerData comparisons isMoveable :
  let owner_id := field_or params "owner_id" VNull in
  let nd := field_or itemData "node" VUndefined in
  let status := field_or itemData "status" (VStr "") in
  pool_connect svc = Ok tt ->
  getId genLabel nodeType sch params = Ret id ->
  nserve_get svc id nodeType = Ok itemData ->
  get_prop itemData "type" = VStr nodeType ->
  nserve_select svc owner_id = Ok ownerData ->
  truthy ownerData = true ->
  getComparisonsMetadata svc nd = Ok comparisons ->
  nonempty_array comparisons = false ->
  isRelatable svc id owner_id = Ok isMoveable ->
  status <> VStr "unsorted" ->
  status <> VStr "sorted" ->
  status <> VStr "missing" ->
  events (move genLabel nodeType sch svc params st)
  = [EConnect; EGet id nodeType; ESelect owner_id; EGetComparisons nd;
     EIsRelatable id owner_id; ENext (Error "invalidMove"); ERelease]
  /\ rejected_before_mutation "invalidMove"
       (events (move genLabel nodeType sch svc params st)).
Proof.
  intros owner_id nd status Hc Hid Hget Hty Hsel Hown Hcmp Hno Hrel H1 H2 H3.
  pose proof (typed_is_truthy _ _ Hty) as Ht.
  pose proof (field_or_present itemData "type" (VStr "") (VStr nodeType)
                Ht Hty ltac:(discriminate)) as Hf.
  pose proof (is_string_same nodeType) as Hs.
  apply is_string_other in H1, H2, H3.
  subst owner_id nd status.
  assert (E : events (move genLabel nodeType sch svc params st)
          = [EConnect; EGet id nodeType;
             ESelect (field_or params "owner_id" VNull);
             EGetComparisons (field_or itemData "node" VUndefined);
             EIsRelatable id (field_or params "owner_id" VNull);
             ENext (Error "invalidMove"); ERelease]).
  { rewrite events_move by exact Hc. unfold move_body. run.
    destruct (truthy isMoveable); run; reflexivity. }
  split; [exact E|]. rewrite E. split.
  - simpl. tauto.
  - repeat constructor.
Qed.

(** C4. When the node is found with the expected type and its
    [hasDependents] is true, [remove] hands the error [23503] to [next]
    and ends: the comparisons are not even looked up, and nothing is
    deleted. *)
Theorem dependents_forbid_delete params st id itemData :
  pool_connect svc = Ok tt ->
  getId genLabel nodeType sch params = Ret id ->
  nserve_get svc id nodeType = Ok itemData ->
  get_prop itemData "type" = VStr nodeType ->
  truthy (get_prop itemData "hasDependents") = true ->
  events (remove genLabel nodeType sch svc params st)
  = [EConnect; EGet id nodeType; ENext (Error "23503"); ERelease]
  /\ rejected_before_mutation "23503"
       (events (remove genLabel nodeType sch svc params st)).
Proof.
  intros Hc Hid Hget Hty Hdep.
  pose proof (typed_is_truthy _ _ Hty) as Ht.
  pose proof (field_or_present itemData "type" (VStr "") (VStr nodeType)
                Ht Hty ltac:(discriminate)) as Hf.
  pose proof (is_string_same nodeType) as Hs.
  assert (E : events (remove genLabel nodeType sch svc params st)
          = [EConnect; EGet id nodeType; ENext (Error "23503"); ERelease]).
  { rewrite events_remove by exact Hc. unfold remove_body. run. reflexivity. }
  split; [exact E|]. rewrite E. split.
  - simpl. tauto.
  - repeat constructor.
Qed.

(** C5. When the node stored under the requested id has a type other than
    the type of the controller, [show], [edit] and [remove] hand [notFound]
    to [next] right after the lookup and end. [move] looks the owner up
    first: when that lookup resolves it hands [notFound] to [next] and
    ends, and when it fails it hands that failure on. In no case is a
    response sent or a service called on the record. *)
Theorem mismatched_type_is_not_found params st id itemData ty :
  pool_connect svc = Ok tt ->
  getId genLabel nodeType sch params = Ret id ->
  nserve_get svc id nodeType = Ok itemData ->
  get_prop itemData "type" = VStr ty ->
  ty <> nodeType ->
  let rejected :=
    [EConnect; EGet id nodeType; ENext (Error "notFound"); ERelease] in
  let owner_id := field_or params "owner_id" VNull in
  events (show genLabel nodeType sch svc params st) = rejected
  /\ events (edit genLabel nodeType sch svc params st) = rejected
  /\ events (remove genLabel nodeType sch svc params st) = rejected
  /\ events (move genLabel nodeType sch svc params st)
     = [EConnect; EGet id nodeType; ESelect owner_id]
         ++ match nserve_select svc owner_id with
            | Ok _ => [ENext (Error "notFound")]
            | Fail err => [EConsoleError err; ENext err]
            end
         ++ [ERelease].
Proof.
  intros Hc Hid Hget Hty Hne rejected owner_id. subst rejected owner_id.
  pose proof (typed_is_truthy _ _ Hty) as Ht.
  pose proof (field_or_present itemData "type" (VStr "") (VStr ty)
                Ht Hty ltac:(discriminate)) as Hf.
  assert (Hs : is_string nodeType (VStr ty) = false)
    by (apply is_string_other; congruence).
  repeat split.
  - unfold show. rewrite events_with_client by exact Hc.
    unfold show_body. run. reflexivity.
  - unfold edit. rewrite events_with_client by exact Hc.
    unfold edit_body. run. reflexivity.
  - rewrite events_remove by exact Hc. unfold remove_body. run. reflexivity.
  - rewrite events_move by exact Hc. unfold move_body. run.
    destruct (nserve_select svc (field_or params "owner_id" VNull))
      as [ownerData|err]; run; [|reflexivity].
    rewrite orb_true_r. run. reflexivity.
Qed.

End ControllerFacts.

(** The properties above on the sample captures. *)

(** C1 fails for [remove]: the capture is in a comparison, and [remove]
    is not rejected with [restrictedByComparisons]; it deletes the
    comparison and then the node. *)
Lemma remove_with_comparisons_is_not_rejected :
  getComparisonsMetadata Sample.compared (Sample.capture_node "unsorted")
  = Ok (VArr [Sample.comparison])
  /\ events (remove Sample.label_of "modern_captures" Sample.captures_schema
               Sample.compared Sample.request Sample.captures_store)
     = [EConnect; EGet (Sample.num 7) "modern_captures";
        EGetComparisons (Sample.capture_node "unsorted");
        EDeleteComparisons (Sample.capture_node "unsorted");
        ESelect VNull; EGetPath Sample.location;
        ERemove Sample.capture_item;
        ERespond "remove" (Sample.capture "unsorted" false) (VObj []);
        ERelease]
  /\ ~ rejected_before_mutation "restrictedByComparisons"
         (events (remove Sample.label_of "modern_captures"
                    Sample.captures_schema Sample.compared Sample.request
                    Sample.captures_store)).
Proof.
  split; [reflexivity|].
  assert (E : events (remove Sample.label_of "modern_captures"
                        Sample.captures_schema Sample.compared Sample.request
                        Sample.captures_store)
              = [EConnect; EGet (Sample.num 7) "modern_captures";
                 EGetComparisons (Sample.capture_node "unsorted");
                 EDeleteComparisons (Sample.capture_node "unsorted");
                 ESelect VNull; EGetPath Sample.location;
                 ERemove Sample.capture_item;
                 ERespond "remove" (Sample.capture "unsorted" false) (VObj []);
                 ERelease]) by reflexivity.
  split; [exact E|]. rewrite E.
  intros [Hin _]. simpl in Hin. intuition discriminate.
Qed.

Lemma comparisons_forbid_move_and_are_deleted_by_remove_witness :
  rejected_before_mutation "restrictedByComparisons"
    (events (move Sample.label_of "modern_captures" Sample.captures_schema
               Sample.compared Sample.request Sample.captures_store))
  /\ events (remove Sample.label_of "modern_captures"
               Sample.captures_schema Sample.compared Sample.request
               Sample.captures_store)
     = [EConnect; EGet (Sample.num 7) "modern_captures";
        EGetComparisons (Sample.capture_node "unsorted");
        EDeleteComparisons (Sample.capture_node "unsorted");
        ESelect VNull; EGetPath Sample.location;
        ERemove Sample.capture_item;
        ERespond "remove" (Sample.capture "unsorted" false) (VObj []);
        ERelease].
Proof.
  pose proof (comparisons_forbid_move_and_are_deleted_by_remove
                Sample.label_of "modern_captures" Sample.captures_schema
                Sample.compared Sample.request Sample.captures_store
                (Sample.num 7) (Sample.capture "unsorted" false)
                Sample.comparison []
                eq_refl eq_refl eq_refl eq_refl eq_refl) as [Hmove Hremove].
  split.
  - exact (proj2 (Hmove Sample.location (VBool true)
                    eq_refl eq_refl eq_refl)).
  - exact (Hremove eq_refl
             [Sample.column "nodes_id" "integer";
              Sample.column "fn_photo_reference" "varying character"]
             Sample.capture_item
             (snd (Model Sample.label_of "modern_captures"
                     Sample.captures_schema
                     (VObj [("nodes_id", Sample.num 7)])
                     Sample.captures_store))
             Sample.location (VObj [])
             eq_refl eq_refl eq_refl eq_refl).
Defined.

(** C2 on a capture in one comparison, when [mserve.remove] fails: the
    comparison is deleted and that transaction committed before the
    owner is looked up; nothing that the handler does afterwards undoes
    it. *)
Lemma move_and_remove_send_no_statement_of_their_own_witness :
  wire MoreSample.own_transactions
    (events (remove Sample.label_of "modern_captures" Sample.captures_schema
               MoreSample.jammed Sample.request Sample.captures_store))
  = [Step EConnect;
     Step (EGet (Sample.num 7) "modern_captures"); Sent "SELECT";
     Step (EGetComparisons (Sample.capture_node "unsorted")); Sent "SELECT";
     Step (EDeleteComparisons (Sample.capture_node "unsorted"));
     Sent "BEGIN"; Sent "DELETE FROM comparisons"; Sent "COMMIT";
     Step (ESelect VNull); Sent "SELECT";
     Step (EGetPath Sample.location);
     Step (ERemove Sample.capture_item);
     Sent "BEGIN"; Sent "DELETE FROM nodes"; Sent "ROLLBACK";
     Step (EConsoleError (Error "deadlock detected"));
     Step (ENext (Error "deadlock detected"));
     Step ERelease].
Proof.
  exact (proj2 (proj2 (move_and_remove_send_no_statement_of_their_own
                         Sample.label_of "modern_captures"
                         Sample.captures_schema MoreSample.jammed
                         Sample.request Sample.captures_store
                         MoreSample.own_transactions eq_refl))
           (Sample.num 7) (Sample.capture "unsorted" false)
           Sample.comparison []
           [Sample.column "nodes_id" "integer";
            Sample.column "fn_photo_reference" "varying character"]
           Sample.capture_item
           (snd (Model Sample.label_of "modern_captures"
                   Sample.captures_schema
                   (VObj [("nodes_id", Sample.num 7)])
                   Sample.captures_store))
           Sample.location (VArr [Sample.location])
           (Error "deadlock detected")
           eq_refl eq_refl eq_refl eq_refl eq_refl eq_refl eq_refl eq_refl
           eq_refl eq_refl eq_refl).
Defined.

Lemma locked_status_forbids_move_witness :
  rejected_before_mutation "invalidMove"
    (events (move Sample.label_of "modern_captures" Sample.captures_schema
               Sample.mastered Sample.request Sample.captures_store)).
Proof.
  refine (proj2 (locked_status_forbids_move
                   Sample.label_of "modern_captures" Sample.captures_schema
                   Sample.mastered Sample.request Sample.captures_store
                   (Sample.num 7) (Sample.capture "masterable" false)
                   Sample.location (VArr []) (VBool true)
                   eq_refl eq_refl eq_refl eq_refl eq_refl eq_refl eq_refl
                   eq_refl eq_refl _ _ _)); discriminate.
Defined.

Lemma dependents_forbid_delete_witness :
  events (remove Sample.label_of "modern_captures" Sample.captures_schema
            Sample.owning Sample.request Sample.captures_store)
  = [EConnect; EGet (Sample.num 7) "modern_captures";
     ENext (Error "23503"); ERelease].
Proof.
  exact (proj1 (dependents_forbid_delete
                  Sample.label_of "modern_captures" Sample.captures_schema
                  Sample.owning Sample.request Sample.captures_store
                  (Sample.num 7) (Sample.capture "unsorted" true)
                  eq_refl eq_refl eq_refl eq_refl eq_refl)).
Defined.

Lemma mismatched_type_is_not_found_witness :
  events (show Sample.label_of "stations" Sample.stations_schema
            Sample.owning Sample.station_request Sample.store0)
  = [EConnect; EGet (Sample.num 7) "stations";
     ENext (Error "notFound"); ERelease]
  /\ events (move Sample.label_of "stations" Sample.stations_schema
               Sample.owning Sample.station_request Sample.store0)
     = [EConnect; EGet (Sample.num 7) "stations"; ESelect VNull;
        ENext (Error "notFound"); ERelease].
Proof.
  refine ((fun H => conj (proj1 H) (proj2 (proj2 (proj2 H))))
            (mismatched_type_is_not_found
               Sample.label_of "stations" Sample.stations_schema
               Sample.owning Sample.station_request Sample.store0
               (Sample.num 7) (Sample.capture "unsorted" true)
               "modern_captures"
               eq_refl eq_refl eq_refl eq_refl _)).
  discriminate.
Defined.

(** * Further properties *)

(** ** Properties of the utilities *)

Section UtilityProperties.
Context `{BI : Builtins}.

Lemma append_nil_l (a : string) : EmptyString +:+ a = a.
Proof. reflexivity. Qed.

Lemma append_cons (c : ascii) (a b : string) :
  String c a +:+ b = String c (a +:+ b).
Proof. reflexivity. Qed.

Lemma contains_gt_append (a b : string) :
  contains_gt (a +:+ String gt b) = true.
Proof.
  induction a as [|c a IH].
  - rewrite append_nil_l. cbn [contains_gt]. now rewrite Ascii.eqb_refl.
  - rewrite append_cons. cbn [contains_gt]. rewrite IH. apply orb_true_r.
Qed.

Lemma matches_tag_found (pre mid post : string) :
  mid <> EmptyString -> contains_gt mid = false ->
  matches_tag (pre +:+ String lt (mid +:+ String gt post)) = true.
Proof.
  intros Hmid Hgt. induction pre as [|c pre IH].
  - rewrite append_nil_l. cbn [matches_tag]. rewrite Ascii.eqb_refl.
    destruct mid as [|m mid]; [congruence|].
    cbn [contains_gt] in Hgt. apply orb_false_iff in Hgt as [Hm _].
    unfold opens_tag. rewrite append_cons, Hm.
    rewrite <- append_cons, contains_gt_append. reflexivity.
  - rewrite append_cons. cbn [matches_tag]. rewrite IH. apply orb_true_r.
Qed.


Lemma own_type_is_not_inherited (ty : string) :
  own_type ty = true -> sanitize_inherited ty = None.
Proof.
  unfold own_type, sanitize_inherited. intros H.
  apply negb_true_iff in H. rewrite H.
  assert (Hno : forall n, In n prototype_names -> String.eqb ty n = false).
  { intros n Hn. destruct (String.eqb_spec ty n) as [->|]; [|reflexivity].
    apply not_true_iff_false in H. exfalso. apply H.
    apply existsb_exists. exists n. split; [exact Hn|apply String.eqb_refl]. }
  rewrite !Hno by (simpl; tauto). reflexivity.
Qed.

Lemma unprintable_is_composite (d : value) :
  printable d = false ->
  match d with VArr _ | VObj _ => True | _ => False end.
Proof. destruct d; simpl; intros H; try discriminate; exact I. Qed.

Lemma sanitize_text_raises (d : value) (e : exn) :
  sanitize_text d = Throw e -> d = VUndefined \/ printable d = false.
Proof.
  unfold sanitize_text, to_string. intros Hd.
  destruct d as [| |b|n|s|l|ps]; try discriminate; auto.
  - destruct s; discriminate.
  - destruct (printable (VArr l)); [discriminate | now right].
  - destruct (printable (VObj ps)); [discriminate | now right].
Qed.

Lemma sanitize_throw_inv (data : value) (ty : string) (e : exn) :
  own_type ty = true ->
  sanitize data ty = Throw e ->
  (data = VUndefined /\ (ty = "text" \/ ty = "varying character"))
  \/ (printable data = false /\ read_as_string ty data = true).
Proof.
  intros Hown He. unfold sanitize in He.
  assert (Hnum : forall f : string -> number,
             match to_string data with
             | Ret s0 => Ret (if num_isNaN (f s0) then VNull else VNum (f s0))
             | Throw e0 => Throw e0
             end = Throw e -> printable data = false).
  { intros f. unfold to_string.
    destruct (printable data); [discriminate|reflexivity]. }
  destruct (String.eqb_spec ty "boolean") as [->|]; [discriminate|].
  destruct (String.eqb_spec ty "varying character") as [->|].
  { destruct (sanitize_text_raises _ _ He); [left|right]; auto. }
  destruct (String.eqb_spec ty "integer") as [->|].
  { right. split; [exact (Hnum _ He)|reflexivity]. }
  destruct (String.eqb_spec ty "double precision") as [->|].
  { right. split; [exact (Hnum _ He)|reflexivity]. }
  destruct (String.eqb_spec ty "float") as [->|].
  { right. split; [exact (Hnum _ He)|reflexivity]. }
  destruct (String.eqb_spec ty "json") as [->|];
    [destruct (stringify data); discriminate|].
  destruct (String.eqb_spec ty "USER-DEFINED") as [->|].
  { right. destruct data as [| |b|num|s|l|ps]; try discriminate.
    unfold to_string in He.
    destruct (printable (VArr l)); [discriminate|]. now split. }
  destruct (String.eqb_spec ty "text") as [->|].
  { destruct (sanitize_text_raises _ _ He); [left|right]; auto. }
  rewrite (own_type_is_not_inherited ty Hown) in He.
  unfold sanitize_default in He.
  destruct data as [| |b|num|s|l|ps]; try discriminate.
  destruct s; discriminate.
Qed.

Lemma sanitize_raises (data : value) (ty : string) :
  printable data = false -> read_as_string ty data = true ->
  sanitize data ty = Throw TypeError.
Proof.
  intros Hp Hr. pose proof (unprintable_is_composite data Hp) as Hc.
  assert (Htext : sanitize_text data = Throw TypeError).
  { unfold sanitize_text, to_string.
    destruct data; try contradiction; now rewrite Hp. }
  assert (Hint : sanitize_integer data = Throw TypeError)
    by (unfold sanitize_integer, to_string; now rewrite Hp).
  assert (Hflt : sanitize_float data = Throw TypeError)
    by (unfold sanitize_float, to_string; now rewrite Hp).
  unfold sanitize. unfold read_as_string in Hr. revert Hr.
  destruct (String.eqb_spec ty "boolean") as [->|]; [discriminate|].
  destruct (String.eqb_spec ty "varying character") as [->|];
    [intros _; exact Htext|].
  destruct (String.eqb_spec ty "integer") as [->|];
    [intros _; exact Hint|].
  destruct (String.eqb_spec ty "double precision") as [->|];
    [intros _; exact Hflt|].
  destruct (String.eqb_spec ty "float") as [->|];
    [intros _; exact Hflt|].
  destruct (String.eqb_spec ty "json") as [->|]; [discriminate|].
  destruct (String.eqb_spec ty "USER-DEFINED") as [->|].
  { destruct data; try contradiction; [|discriminate].
    intros _. unfold to_string. now rewrite Hp. }
  destruct (String.eqb_spec ty "text") as [->|];
    [intros _; exact Htext|discriminate].
Qed.

(** X1. For a type name of the sanitizers' own table, [sanitize] raises
    in two cases only: a text type given [undefined], and a value that
    does not print (an object that owns a property [toString], or an
    array that holds one) given to a sanitizer that makes a string of
    it. *)
Theorem sanitize_raises_on_what_it_cannot_print
    (data : value) (ty : string) :
  own_type ty = true ->
  (exists e, sanitize data ty = Throw e)
  <-> (data = VUndefined /\ (ty = "text" \/ ty = "varying character"))
      \/ (printable data = false /\ read_as_string ty data = true).
Proof.
  intros Hown. split.
  - intros [e He]. exact (sanitize_throw_inv data ty e Hown He).
  - intros [[-> [-> | ->]] | [Hp Hr]]; exists TypeError;
      try reflexivity.
    now apply sanitize_raises.
Qed.

Lemma strip_inside (s : string) :
  strip_from true s = strip_from false (after_gt s).
Proof.
  induction s as [|c s IH]; [reflexivity|].
  cbn [strip_from after_gt]. destruct (Ascii.eqb c gt); simpl; auto.
Qed.

Lemma after_gt_length (s : string) :
  (String.length (after_gt s) <= String.length s)%nat.
Proof.
  induction s as [|c s IH]; simpl; [lia|].
  destruct (Ascii.eqb c gt); simpl; lia.
Qed.

Lemma strip_without_gt (s : string) :
  contains_gt s = false -> strip_from false s = s.
Proof.
  induction s as [|c s IH]; [reflexivity|].
  cbn [contains_gt strip_from]. intros H.
  apply orb_false_iff in H as [Hc Hs].
  assert (Ho : opens_tag s = false).
  { unfold opens_tag. destruct s; [reflexivity|].
    rewrite Hs. apply andb_false_r. }
  rewrite Ho, andb_false_r, IH; auto.
Qed.

Lemma strip_keeps_closed (s : string) :
  opens_tag s = false -> opens_tag (strip_from false s) = false.
Proof.
  destruct s as [|c s]; [reflexivity|].
  intros H. unfold opens_tag in H.
  destruct (Ascii.eqb c gt) eqn:Hc.
  - cbn [strip_from].
    assert (Hlt : Ascii.eqb c lt = false).
    { apply Ascii.eqb_eq in Hc. subst c. reflexivity. }
    rewrite Hlt. cbn [andb opens_tag]. now rewrite Hc.
  - cbn [negb andb] in H. rewrite strip_without_gt by exact H.
    unfold opens_tag. rewrite H. apply andb_false_r.
Qed.

Lemma strip_leaves_no_tag_upto (n : nat) :
  forall s, (String.length s <= n)%nat ->
            matches_tag (strip_from false s) = false.
Proof.
  induction n as [|n IH]; intros s Hn.
  - destruct s; [reflexivity | simpl in Hn; lia].
  - destruct s as [|c s]; [reflexivity|]. simpl in Hn.
    cbn [strip_from].
    destruct (Ascii.eqb c lt && opens_tag s) eqn:Hopen.
    + rewrite strip_inside. apply IH.
      pose proof (after_gt_length s). lia.
    + cbn [matches_tag]. rewrite IH by lia. rewrite orb_false_r.
      apply andb_false_iff in Hopen as [Hc | Ho].
      * now rewrite Hc.
      * rewrite strip_keeps_closed by exact Ho. apply andb_false_r.
Qed.

Lemma sanitize_text_returns_clean (data v : value) :
  sanitize_text data = Ret v -> exists s, v = VStr s /\ matches_tag s = false.
Proof.
  intros Ht. unfold sanitize_text, to_string in Ht.
  assert (Hstrip : forall s0 : string,
             @Ret value (VStr (strip_tags s0)) = Ret v ->
             exists s, v = VStr s /\ matches_tag s = false).
  { intros s0 H. injection H as <-. eexists. split; [reflexivity|].
    apply (strip_leaves_no_tag_upto _ _ (le_n _)). }
  destruct data as [| |b|n|s|l|ps]; try discriminate;
    try (now apply (Hstrip _ Ht)).
  - injection Ht as <-. now exists EmptyString.
  - destruct s; [injection Ht as <-; now exists EmptyString|].
    now apply (Hstrip _ Ht).
  - destruct (printable (VArr l)); [now apply (Hstrip _ Ht)|discriminate].
  - destruct (printable (VObj ps)); [now apply (Hstrip _ Ht)|discriminate].
Qed.

(** X2. What the text sanitizer returns is a string that holds no tag:
    nothing in it matches [/<[^>]+>/], that is, it has no [<] followed by
    one or more characters other than [>] and then a [>]. *)
Theorem sanitized_text_holds_no_tag (data v : value) (ty : string) :
  ty = "text" \/ ty = "varying character" ->
  sanitize data ty = Ret v ->
  exists s,
    v = VStr s
    /\ matches_tag s = false
    /\ forall pre mid post,
         mid <> EmptyString -> contains_gt mid = false ->
         s <> pre +:+ String lt (mid +:+ String gt post).
Proof.
  intros Hty H.
  assert (Ht : sanitize_text data = Ret v)
    by (destruct Hty as [-> | ->]; exact H).
  destruct (sanitize_text_returns_clean data v Ht) as (s & -> & Hs).
  exists s. split; [reflexivity|]. split; [exact Hs|].
  intros pre mid post Hmid Hgt ->.
  rewrite matches_tag_found in Hs by assumption. discriminate.
Qed.

Lemma strip_without_tag (s : string) :
  matches_tag s = false -> strip_from false s = s.
Proof.
  induction s as [|c s IH]; [reflexivity|].
  cbn [matches_tag strip_from]. intros H.
  apply orb_false_iff in H as [Hc Hs]. now rewrite Hc, IH.
Qed.

(** X3. Sanitizing a text that has been sanitized changes nothing. *)
Theorem sanitize_text_is_idempotent (data v : value) (ty : string) :
  ty = "text" \/ ty = "varying character" ->
  sanitize data ty = Ret v ->
  sanitize v ty = Ret v.
Proof.
  intros Hty H.
  assert (Hd : sanitize_text data = Ret v)
    by (destruct Hty as [-> | ->]; exact H).
  destruct (sanitize_text_returns_clean data v Hd) as (s & -> & Hs).
  assert (Ht : sanitize_text (VStr s) = Ret (VStr s)).
  { unfold sanitize_text. destruct s; [reflexivity|].
    unfold to_string. cbn [printable toString]. unfold strip_tags.
    now rewrite strip_without_tag. }
  destruct Hty as [-> | ->]; exact Ht.
Qed.

Lemma lower_is_not_upper (c : ascii) :
  is_upper c = true -> is_upper (to_lower c) = false.
Proof.
  destruct c as [[|] [|] [|] [|] [|] [|] [|] [|]];
    intros H; try discriminate H; reflexivity.
Qed.

Lemma toSnake_has_no_upper (s : string) : no_upper (toSnake s) = true.
Proof.
  unfold no_upper. induction s as [|c s IH]; [reflexivity|].
  cbn [toSnake]. destruct (is_upper c) eqn:Hc.
  - cbn [list_ascii_of_string forallb].
    rewrite (lower_is_not_upper c Hc). exact IH.
  - cbn [list_ascii_of_string forallb]. rewrite Hc. exact IH.
Qed.

Lemma toSnake_without_upper (s : string) :
  no_upper s = true -> toSnake s = s.
Proof.
  unfold no_upper. induction s as [|c s IH]; [reflexivity|].
  cbn [list_ascii_of_string forallb toSnake]. intros H.
  apply andb_true_iff in H as [Hc Hs].
  apply negb_true_iff in Hc. now rewrite Hc, IH.
Qed.

Lemma contains_append (c : ascii) (a b : string) :
  contains c (a +:+ b) = contains c a || contains c b.
Proof.
  unfold contains. induction a as [|x a IH]; [reflexivity|].
  rewrite ?append_nil_l, ?append_cons; cbn [list_ascii_of_string existsb].
  now rewrite IH, orb_assoc.
Qed.

Lemma fragments_have_no_underscore (s : string) :
  List.Forall (fun f => contains "_"%char f = false) (split_underscore s).
Proof.
  induction s as [|c s IH]; [repeat constructor|].
  cbn [split_underscore].
  destruct (Ascii.eqb c "_"%char) eqn:Hc; [now constructor|].
  destruct (split_underscore s) as [|f fs]; [repeat constructor|].
  - unfold contains. cbn [list_ascii_of_string existsb].
    now rewrite Ascii.eqb_sym, Hc.
  - inversion IH as [|? ? Hf Hfs]; subst. constructor; [|exact Hfs].
    unfold contains in *. cbn [list_ascii_of_string existsb].
    now rewrite Ascii.eqb_sym, Hc.
Qed.

Lemma upper_is_not_underscore (c : ascii) :
  Ascii.eqb "_"%char c = false -> Ascii.eqb "_"%char (to_upper c) = false.
Proof.
  destruct c as [[|] [|] [|] [|] [|] [|] [|] [|]];
    intros H; try discriminate H; reflexivity.
Qed.

Lemma capitalize_has_no_underscore (f : string) :
  contains "_"%char f = false -> contains "_"%char (capitalize f) = false.
Proof.
  destruct f as [|c f]; [auto|]. unfold contains.
  cbn [capitalize list_ascii_of_string existsb]. intros H.
  apply orb_false_iff in H as [Hc Hf].
  now rewrite (upper_is_not_underscore c Hc), Hf.
Qed.

Lemma join_has_no_underscore (fs : list string) :
  List.Forall (fun f => contains "_"%char f = false) fs ->
  contains "_"%char (join " " fs) = false.
Proof.
  induction 1 as [|f fs Hf Hfs IH]; [reflexivity|].
  cbn [join]. destruct fs as [|f' fs]; [exact Hf|].
  rewrite !contains_append, Hf, IH. reflexivity.
Qed.

(** X4. [toSnake] leaves no capital letter, and changes nothing in a string
    that has none: applied twice it gives what it gives once. [humanize]
    leaves no underscore, and gives a camel-case name and its snake-case
    form the same label. *)
Theorem humanize_reads_camel_and_snake_alike (s : string) :
  no_upper (toSnake s) = true
  /\ toSnake (toSnake s) = toSnake s
  /\ contains "_"%char (humanize s) = false
  /\ humanize (toSnake s) = humanize s.
Proof.
  assert (Hidem : toSnake (toSnake s) = toSnake s)
    by (apply toSnake_without_upper, toSnake_has_no_upper).
  split; [apply toSnake_has_no_upper|]. split; [exact Hidem|]. split.
  - unfold humanize. apply join_has_no_underscore.
    pose proof (fragments_have_no_underscore (toSnake s)) as H.
    induction H as [|f fs Hf _ IH]; cbn [map]; constructor; auto.
    now apply capitalize_has_no_underscore.
  - unfold humanize. now rewrite Hidem.
Qed.

Lemma keep_safe_append (a b : string) :
  keep_safe (a +:+ b) = keep_safe a +:+ keep_safe b.
Proof.
  induction a as [|c a IH]; [reflexivity|].
  rewrite append_cons. cbn [keep_safe].
  destruct (is_safe c); rewrite ?append_cons; now rewrite IH.
Qed.

Lemma keep_safe_is_safe (s : string) :
  forallb is_safe (list_ascii_of_string (keep_safe s)) = true.
Proof.
  induction s as [|c s IH]; [reflexivity|].
  cbn [keep_safe]. destruct (is_safe c) eqn:Hc; [|exact IH].
  cbn [list_ascii_of_string forallb]. now rewrite Hc.
Qed.

Lemma replace_first_space_append (a b : string) :
  contains " "%char a = false ->
  replace_first_space (a +:+ String " "%char b) = a +:+ String "_"%char b.
Proof.
  unfold contains. induction a as [|c a IH]; [reflexivity|].
  cbn [list_ascii_of_string existsb].
  intros H. apply orb_false_iff in H as [Hc Ha].
  rewrite !append_cons. cbn [replace_first_space].
  rewrite Ascii.eqb_sym, Hc. now rewrite IH.
Qed.

Lemma replace_first_space_none (a : string) :
  contains " "%char a = false -> replace_first_space a = a.
Proof.
  unfold contains. induction a as [|c a IH]; [reflexivity|].
  cbn [list_ascii_of_string existsb replace_first_space].
  intros H. apply orb_false_iff in H as [Hc Ha].
  rewrite Ascii.eqb_sym, Hc. now rewrite IH.
Qed.

(** X5. The directory name that [createNode] makes of a label holds only
    letters, digits, [_] and [-]. The first space of the label becomes
    [_]; every other space is dropped with the other characters. *)
Theorem slug_is_a_safe_name (label : string) :
  forallb is_safe (list_ascii_of_string (slug label)) = true
  /\ (contains " "%char label = false -> slug label = keep_safe label)
  /\ (forall a b,
         label = a +:+ String " "%char b ->
         contains " "%char a = false ->
         slug label = keep_safe a +:+ String "_"%char (keep_safe b)).
Proof.
  split; [apply keep_safe_is_safe|]. split.
  - intros H. unfold slug. now rewrite replace_first_space_none.
  - intros a b -> Ha. unfold slug.
    rewrite replace_first_space_append by exact Ha.
    rewrite keep_safe_append. reflexivity.
Qed.

End UtilityProperties.

(** ** Properties of [groupBy] *)

Section GroupByProperties.
Context `{BI : Builtins}.

Lemma group_rows_collects (key : string) (rows : list value) :
  forallb (plain_row key) rows = true ->
  forall rv,
    (forall g, assoc g rv <> Some []) ->
    exists rv',
      group_rows key rv rows = Ret rv'
      /\ (forall g, assoc g rv' <> Some [])
      /\ forall g,
           rows_of g rv' = rows_of g rv ++ List.filter (in_group key g) rows.
Proof.
  induction rows as [|x rows IH]; intros Hok rv Hrv.
  - exists rv. cbn [group_rows List.filter]. split; [reflexivity|].
    split; [exact Hrv|]. intros g. now rewrite app_nil_r.
  - cbn [forallb] in Hok. apply andb_true_iff in Hok as [Hx Hrows].
    assert (Hx' : groupable key x = true /\ printable (get_prop x key) = true).
    { unfold plain_row in Hx. destruct x; try discriminate.
      now apply andb_true_iff in Hx. }
    clear Hx. destruct Hx' as [Hx Hprint].
    unfold groupable in Hx. apply andb_true_iff in Hx as [Hnull Hproto].
    apply negb_true_iff in Hnull, Hproto.
    cbn [group_rows]. unfold group_step. rewrite Hnull, Hprint.
    cbn [negb]. set (gx := group_name x key) in *.
    assert (Hstep : exists rv1,
               (match assoc gx rv with
                | Some rows0 => Ret (assoc_set gx (rows0 ++ [x]) rv)
                | None =>
                    if existsb (String.eqb gx) prototype_names
                    then Throw TypeError
                    else Ret (assoc_set gx [x] rv)
                end) = Ret rv1
               /\ (forall g, assoc g rv1 <> Some [])
               /\ forall g, rows_of g rv1
                            = rows_of g rv
                                ++ (if in_group key g x then [x] else [])).
    { destruct (assoc gx rv) as [rows0|] eqn:Hg.
      - exists (assoc_set gx (rows0 ++ [x]) rv). split; [reflexivity|]. split.
        + intros g. destruct (String.eqb_spec gx g) as [<-|Hne].
          * rewrite assoc_set_same. intros [=]. now destruct rows0.
          * rewrite assoc_set_other by exact Hne. apply Hrv.
        + intros g. unfold rows_of, in_group. fold gx.
          destruct (String.eqb_spec gx g) as [<-|Hne].
          * now rewrite assoc_set_same, Hg.
          * rewrite assoc_set_other by exact Hne. now rewrite app_nil_r.
      - rewrite Hproto. exists (assoc_set gx [x] rv).
        split; [reflexivity|]. split.
        + intros g. destruct (String.eqb_spec gx g) as [<-|Hne].
          * rewrite assoc_set_same. discriminate.
          * rewrite assoc_set_other by exact Hne. apply Hrv.
        + intros g. unfold rows_of, in_group. fold gx.
          destruct (String.eqb_spec gx g) as [<-|Hne].
          * now rewrite assoc_set_same, Hg.
          * rewrite assoc_set_other by exact Hne. now rewrite app_nil_r. }
    destruct Hstep as (rv1 & -> & Hrv1 & Hrows1).
    destruct (IH Hrows rv1 Hrv1) as (rv' & Hrun & Hrv' & Hall).
    exists rv'. split; [exact Hrun|]. split; [exact Hrv'|].
    intros g. rewrite Hall, Hrows1. cbn [List.filter].
    rewrite <- app_assoc. now destruct (in_group key g x).
Qed.

Lemma assoc_map_arrays (g : string) (rv : list (string * list value)) :
  assoc g (map (fun p => (fst p, VArr (snd p))) rv)
  = option_map VArr (assoc g rv).
Proof.
  induction rv as [|[g' rows] rv IH]; [reflexivity|].
  cbn [map assoc fst snd]. now destruct (String.eqb g g').
Qed.

(** X6. [groupBy] partitions records by a key of their own: when [key]
    is no name that a record inherits from [Object.prototype], and every
    row is a record whose value under [key] prints and gives a group
    name that is no such name either, then under the name of a group
    the result holds the rows of that group, all of them and in their
    order, and it holds nothing under a name that no row has. *)
Theorem groupBy_partitions_the_rows (rows : list value) (key : string) :
  existsb (String.eqb key) prototype_names = false ->
  forallb (plain_row key) rows = true ->
  exists groups,
    groupBy (VArr rows) key = Ret (VObj groups)
    /\ forall g,
         assoc g groups
         = match List.filter (in_group key g) rows with
           | [] => None
           | members => Some (VArr members)
           end.
Proof.
  intros _ Hok.
  destruct (group_rows_collects key rows Hok [])
    as (rv & Hrun & Hne & Hall); [discriminate|].
  unfold groupBy. rewrite Hrun. eexists. split; [reflexivity|].
  intros g. rewrite assoc_map_arrays. specialize (Hall g). specialize (Hne g).
  unfold rows_of in Hall. cbn [assoc app] in Hall.
  destruct (assoc g rv) as [members|]; cbn [option_map].
  - rewrite <- Hall. destruct members; [congruence | reflexivity].
  - now rewrite <- Hall.
Qed.

Lemma group_rows_raises (key : string) (rows : list value) :
  forallb (groupable key) rows = false ->
  forall rv,
    (forall g, In g prototype_names -> assoc g rv = None) ->
    group_rows key rv rows = Throw TypeError.
Proof.
  induction rows as [|x rows IH]; intros Hbad rv Hrv; [discriminate|].
  cbn [forallb] in Hbad. cbn [group_rows]. unfold group_step.
  destruct (is_nullish x) eqn:Hnull; [reflexivity|].
  destruct (printable (get_prop x key)); [|reflexivity]. cbn [negb].
  set (gx := group_name x key) in *.
  destruct (existsb (String.eqb gx) prototype_names) eqn:Hproto.
  - assert (Hin : In gx prototype_names).
    { apply existsb_exists in Hproto as (g & Hg & He).
      apply String.eqb_eq in He. now subst. }
    now rewrite (Hrv gx Hin).
  - unfold groupable in Hbad. fold gx in Hbad.
    rewrite Hnull, Hproto in Hbad. cbn [negb andb] in Hbad.
    assert (Hkeep : forall rows1 g,
               In g prototype_names ->
               assoc g (assoc_set gx rows1 rv) = None).
    { intros rows1 g Hg. rewrite assoc_set_other; [now apply Hrv|].
      intros ->. apply not_true_iff_false in Hproto. apply Hproto.
      apply existsb_exists. exists g. split; [exact Hg|].
      apply String.eqb_refl. }
    destruct (assoc gx rv); apply IH; auto.
Qed.

(** X7. The failures of [groupBy]: [null] and [undefined] give [null]; a
    value that is not an array has no [reduce]; and a row that is [null]
    or [undefined], or whose group name is one that [Object.prototype]
    defines, makes the call raise a [TypeError]. *)
Theorem groupBy_rejects_bad_rows (arr : value) (key : string) :
  (is_nullish arr = true -> groupBy arr key = Ret VNull)
  /\ (is_nullish arr = false -> (forall rows, arr <> VArr rows) ->
      groupBy arr key = Throw TypeError)
  /\ (forall rows, arr = VArr rows ->
      forallb (groupable key) rows = false ->
      groupBy arr key = Throw TypeError).
Proof.
  split; [|split].
  - destruct arr; try discriminate; reflexivity.
  - intros Hn Harr. destruct arr; try discriminate; try reflexivity.
    now specialize (Harr elems).
  - intros rows -> Hbad. unfold groupBy.
    now rewrite group_rows_raises.
Qed.

End GroupByProperties.

(** ** Properties of the accessors *)

Section AccessorProperties.
Context `{BI : Builtins}.

Lemma written_again rhs k a :
  written rhs k (written rhs k a) = written rhs k a.
Proof.
  unfold written. destruct (rhs k (attr_type a)) as [v|e] eqn:E.
  - cbn [with_value attr_type]. now rewrite E.
  - now rewrite E.
Qed.

Lemma assoc_write_value rhs table k0 k :
  assoc k (write_value rhs table k0)
  = if String.eqb k0 k then option_map (written rhs k0) (assoc k table)
    else assoc k table.
Proof.
  unfold write_value, written.
  destruct (String.eqb_spec k0 k) as [<-|Hne].
  - destruct (assoc k0 table) as [a|] eqn:Ha; cbn [option_map].
    + destruct (rhs k0 (attr_type a)); [apply assoc_set_same | exact Ha].
    + exact Ha.
  - destruct (assoc k0 table) as [a|]; [|reflexivity].
    destruct (rhs k0 (attr_type a)); [|reflexivity].
    now apply assoc_set_other.
Qed.

Lemma keys_write_value rhs table k0 :
  keys (write_value rhs table k0) = keys table.
Proof.
  unfold write_value. destruct (assoc k0 table) as [a|] eqn:Ha; [|reflexivity].
  destruct (rhs k0 (attr_type a)); [|reflexivity].
  apply keys_assoc_set_present. unfold has_key. now rewrite Ha.
Qed.

Lemma keys_write_all rhs ks :
  forall table, keys (fold_left (write_value rhs) ks table) = keys table.
Proof.
  induction ks as [|k ks IH]; intros table; [reflexivity|].
  cbn [fold_left]. now rewrite IH, keys_write_value.
Qed.

Lemma assoc_write_all rhs ks k :
  forall table,
    assoc k (fold_left (write_value rhs) ks table)
    = option_map (fun a => if existsb (String.eqb k) ks
                           then written rhs k a else a)
                 (assoc k table).
Proof.
  induction ks as [|k0 ks IH]; intros table.
  - cbn [fold_left existsb]. now destruct (assoc k table).
  - cbn [fold_left existsb]. rewrite IH, assoc_write_value.
    rewrite (String.eqb_sym k k0).
    destruct (String.eqb_spec k0 k) as [->|Hne]; cbn [orb].
    + destruct (assoc k table) as [a|]; [|reflexivity]. cbn [option_map].
      destruct (existsb (String.eqb k) ks); [|reflexivity].
      now rewrite written_again.
    + reflexivity.
Qed.

(** A run of writes that all go through leaves the table that
    [write_value] computes, and prints nothing. *)
Lemma for_each_assign_all rhs l ks :
  forall st table,
    heap st !! l = Some (CAttrs table) ->
    (forall k a, In k ks -> assoc k table = Some a ->
                 exists v, rhs k (attr_type a) = Ret v) ->
    (forall k, In k ks -> has_key k table = true) ->
    for_each (fun k => assign_value l k (rhs k)) ks st
    = (Ret tt,
       {| heap := <[l := CAttrs (fold_left (write_value rhs) ks table)]>
                    (heap st);
          console := console st |}).
Proof.
  induction ks as [|k ks IH]; intros st table Hl Hok Hin.
  - cbn [for_each fold_left]. unfold ret. f_equal.
    destruct st as [h c]. cbn [heap console] in *. f_equal.
    symmetry. now apply list_insert_id.
  - cbn [for_each fold_left]. unfold bind.
    assert (Hk : has_key k table = true) by (apply Hin; now left).
    unfold has_key in Hk.
    destruct (assoc k table) as [a|] eqn:Ha; [|discriminate].
    destruct (Hok k a (or_introl eq_refl) Ha) as [v Hv].
    rewrite (assign_value_table st l table k a (rhs k) v Hl Ha Hv).
    assert (Hw : write_value rhs table k = assoc_set k (with_value a v) table).
    { unfold write_value. now rewrite Ha, Hv. }
    rewrite Hw.
    rewrite (IH _ (assoc_set k (with_value a v) table)).
    + cbn [heap console]. now rewrite list_insert_insert_eq.
    + cbn [heap]. apply list_lookup_insert_eq. eapply lookup_lt_Some; eauto.
    + intros k' a' Hk' Ha'.
      destruct (String.eqb_spec k k') as [<-|Hne].
      * rewrite assoc_set_same in Ha'. injection Ha' as <-.
        cbn [with_value attr_type]. eauto.
      * rewrite assoc_set_other in Ha' by exact Hne.
        apply (Hok k' a'); [now right | exact Ha'].
    + intros k' Hk'. apply has_key_In.
      rewrite keys_assoc_set_present by (unfold has_key; now rewrite Ha).
      apply has_key_In, Hin. now right.
Qed.

Lemma getValue_table this st table k :
  heap st !! attributes this = Some (CAttrs table) ->
  k <> "" ->
  getValue this k st
  = (Ret (match assoc k table with
          | Some a => attr_value a
          | None => VNull
          end), st).
Proof.
  intros Hl Hk. unfold getValue.
  destruct (String.eqb_spec k ""); [congruence|].
  unfold bind, read_cell. cbv beta iota. rewrite Hl.
  cbn [cell_has]. unfold has_key.
  destruct (assoc k table) as [a|] eqn:Ha; [|reflexivity].
  unfold read_value, bind, read_cell, lift. cbv beta iota. rewrite Hl.
  cbn [cell_get]. now rewrite Ha.
Qed.

Lemma setValue_table this st table k a v :
  heap st !! attributes this = Some (CAttrs table) ->
  assoc k table = Some a ->
  setValue this k v st = assign_value (attributes this) k (sanitize v) st.
Proof.
  intros Hl Ha. unfold setValue, bind, read_cell. cbv beta iota. rewrite Hl.
  cbn [cell_has]. unfold has_key. now rewrite Ha.
Qed.

(** X8. On an attribute whose type is a type name of the sanitizers' own:
    [setValue] stores what the sanitizer of the type makes of the value,
    and [getValue] reads it back; the other attributes read as before.
    When the sanitizer raises ([undefined] for a text type, a value that
    does not print for a type that makes a string of it), so does
    [setValue], and nothing is stored. *)
Theorem setValue_then_getValue
    (this : instance) (st : store) (table : list (string * attribute))
    (k : string) (a : attribute) (v : value) :
  heap st !! attributes this = Some (CAttrs table) ->
  assoc k table = Some a ->
  own_type (attr_type a) = true ->
  k <> "" ->
  match sanitize v (attr_type a) with
  | Ret w =>
      let st' := snd (setValue this k v st) in
      setValue this k v st = (Ret tt, st')
      /\ getValue this k st' = (Ret w, st')
      /\ forall k', k' <> k ->
           fst (getValue this k' st') = fst (getValue this k' st)
  | Throw e => setValue this k v st = (Throw e, st)
  end.
Proof.
  intros Hl Ha _ Hk.
  pose proof (setValue_table this st table k a v Hl Ha) as Hrun.
  destruct (sanitize v (attr_type a)) as [w|e] eqn:Hs.
  - rewrite Hrun.
    rewrite (assign_value_table st _ table k a (sanitize v) w Hl Ha Hs).
    cbn [snd].
    set (st' := {| heap := _; console := _ |}).
    assert (Hl' : heap st' !! attributes this
                  = Some (CAttrs (assoc_set k (with_value a w) table))).
    { apply list_lookup_insert_eq. eapply lookup_lt_Some; eauto. }
    split; [reflexivity|]. split.
    + rewrite (getValue_table this st' _ k Hl' Hk).
      now rewrite assoc_set_same.
    + intros k' Hne. destruct (String.eqb_spec k' "") as [->|Hk'].
      * reflexivity.
      * rewrite (getValue_table this st' _ k' Hl' Hk').
        rewrite (getValue_table this st _ k' Hl Hk').
        rewrite assoc_set_other by congruence. reflexivity.
  - rewrite Hrun. unfold assign_value, bind, read_cell, lift.
    cbv beta iota. rewrite Hl. cbn [cell_get]. rewrite Ha.
    cbv beta iota. now rewrite Hs.
Qed.

Lemma NoDup_filter_keys (f : string -> bool) (ks : list string) :
  List.NoDup ks -> List.NoDup (List.filter f ks).
Proof. apply List.NoDup_filter. Qed.

(** X9. [getData(filter)] returns a record with the keys of the table that
    are not in [filter], in the order of the table, each with the value
    of its attribute. *)
Theorem getData_omits_the_filtered_keys
    (this : instance) (st : store) (table : list (string * attribute))
    (flt : list string) :
  heap st !! attributes this = Some (CAttrs table) ->
  List.NoDup (keys table) ->
  exists o,
    getData this flt st = (Ret (VObj o), st)
    /\ keys o
       = List.filter (fun k => negb (existsb (String.eqb k) flt)) (keys table)
    /\ forall k, In k (keys o) -> assoc k o = Some (value_at table k).
Proof.
  intros Hl Hnd.
  set (ks := List.filter (fun k => negb (existsb (String.eqb k) flt))
                         (keys table)).
  assert (Hsub : forall k, In k ks -> In k (keys table)).
  { intros k Hk. apply filter_In in Hk. tauto. }
  exists (gather table ks []). split; [|split].
  - unfold getData, bind, read_cell, lift. cbv beta iota. rewrite Hl.
    cbn [cell_keys]. fold ks. now rewrite (collect_table st _ table Hl ks []).
  - rewrite keys_gather; [reflexivity|]. cbn [keys map app].
    now apply NoDup_filter_keys.
  - intros k Hk. apply assoc_gather.
    apply In_keys_gather in Hk as [Hk|[]]. exact Hk.
Qed.


Lemma get_prop_object (ps : list (string * value)) (k : string) (x : value) :
  assoc k ps = Some x -> get_prop (VObj ps) k = x.
Proof. intros H. unfold get_prop. cbn [entries]. now rewrite H. Qed.

Lemma existsb_filter_keys (k : string) (f : string -> bool) ks :
  existsb (String.eqb k) (List.filter f ks)
  = existsb (String.eqb k) ks && f k.
Proof.
  induction ks as [|k0 ks IH]; [reflexivity|].
  cbn [List.filter existsb]. destruct (f k0) eqn:Hf; cbn [existsb].
  - rewrite IH. destruct (String.eqb_spec k k0) as [->|]; cbn [orb].
    + now rewrite Hf.
    + reflexivity.
  - rewrite IH. destruct (String.eqb_spec k k0) as [->|]; cbn [orb].
    + rewrite Hf. now rewrite andb_false_r.
    + reflexivity.
Qed.

Lemma existsb_keys (k : string) {A} (ps : list (string * A)) :
  existsb (String.eqb k) (keys ps) = has_key k ps.
Proof.
  unfold has_key, keys. induction ps as [|[k0 x] ps IH]; [reflexivity|].
  cbn [map fst existsb assoc]. now destruct (String.eqb k k0).
Qed.

Lemma sanitize_returns (x : value) (ty : string) :
  own_type ty = true -> x <> VUndefined -> printable x = true ->
  exists v, sanitize x ty = Ret v.
Proof.
  intros Hty Hx Hp. destruct (sanitize x ty) as [v|e] eqn:Hs; [eauto|].
  apply sanitize_throw_inv in Hs as [[-> _]|[Hs _]]; congruence.
Qed.

(** X10. The round trip of [setData] and [getData]: on a table whose types
    are type names of the sanitizers' own, for an input record that
    holds no [undefined] and no value that does not print, and that owns
    neither a key [rows] nor a key [hasOwnProperty], [setData] returns,
    and [getData()] then gives, under each key of the schema, the
    sanitized value of the input where the input has the key, and the
    value the attribute had before where it has not. *)
Theorem setData_then_getData
    (this : instance) (st : store) (table : list (string * attribute))
    (ps : list (string * value)) :
  heap st !! attributes this = Some (CAttrs table) ->
  (forall k a, assoc k table = Some a -> own_type (attr_type a) = true) ->
  has_key "rows" ps = false ->
  has_key "hasOwnProperty" ps = false ->
  (forall k x, assoc k ps = Some x -> x <> VUndefined /\ printable x = true) ->
  exists st' o,
    setData this (VObj ps) st = (Ret tt, st')
    /\ getData this [] st' = (Ret (VObj o), st')
    /\ forall k a,
         assoc k table = Some a ->
         match assoc k ps with
         | Some x =>
             exists v, sanitize x (attr_type a) = Ret v
                       /\ assoc k o = Some v
         | None => assoc k o = Some (attr_value a)
         end.
Proof.
  intros Hl Htypes Hrows _ Hdef.
  set (rhs := fun k => sanitize (get_prop (VObj ps) k)).
  set (ks := List.filter (fun k => has_key k table) (keys ps)).
  assert (Hin : forall k, In k ks -> has_key k table = true).
  { intros k Hk. apply filter_In in Hk. tauto. }
  assert (Hok : forall k a, In k ks -> assoc k table = Some a ->
                            exists v, rhs k (attr_type a) = Ret v).
  { intros k a Hk Ha. apply filter_In in Hk as [Hk _].
    apply has_key_In in Hk. unfold has_key in Hk.
    destruct (assoc k ps) as [x|] eqn:Hx; [|discriminate].
    unfold rhs. rewrite (get_prop_object ps k x Hx).
    destruct (Hdef k x Hx). apply sanitize_returns; eauto. }
  assert (Hrun : setData this (VObj ps) st
                 = for_each (fun k => assign_value (attributes this) k (rhs k))
                     ks
                     {| heap := heap st;
                        console := console st
                          ++ map (fun k => warning k (name this))
                               (List.filter
                                  (fun k => negb (has_key k table))
                                  (keys ps)) |}).
  { apply setData_table with (inputData := VObj ps); auto.
    unfold select_input, has_own. cbn [entries]. now rewrite Hrows. }
  rewrite Hrun.
  match goal with
  | |- context [for_each _ ks ?s0] =>
      rewrite (for_each_assign_all rhs _ ks s0 table Hl Hok Hin)
  end.
  cbn [heap console].
  set (table' := fold_left (write_value rhs) ks table).
  set (st' := {| heap := _; console := _ |}).
  assert (Hl' : heap st' !! attributes this = Some (CAttrs table')).
  { apply list_lookup_insert_eq. eapply lookup_lt_Some; eauto. }
  exists st', (gather table' (keys table') []).
  split; [reflexivity|]. split; [now apply getData_table|].
  intros k a Ha.
  assert (Hk' : In k (keys table')).
  { unfold table'. rewrite keys_write_all. apply has_key_In.
    unfold has_key. now rewrite Ha. }
  rewrite (assoc_gather table' (keys table') k [] Hk').
  unfold value_at, table'. rewrite assoc_write_all, Ha. cbn [option_map].
  unfold ks. rewrite existsb_filter_keys, existsb_keys.
  unfold has_key at 2. rewrite Ha, andb_true_r. unfold has_key.
  destruct (assoc k ps) as [x|] eqn:Hx; [|reflexivity].
  unfold written, rhs. rewrite (get_prop_object ps k x Hx).
  destruct (Hdef k x Hx) as [Hx1 Hx2].
  destruct (sanitize_returns x (attr_type a) (Htypes k a Ha) Hx1 Hx2)
    as [v Hv].
  rewrite Hv. eauto.
Qed.

Lemma first_of_rows (row : value) (rest : list value) :
  get_prop (VArr (row :: rest)) "0" = row.
Proof. reflexivity. Qed.

(** X11. A result set is read as its first row: [setData] does with a record
    that holds the rows of a query under [rows] what it does with the
    first of them, and the other rows are not looked at (neither the
    record nor the row owning a property [hasOwnProperty], on which the
    call raises). With no row at all it raises a [TypeError] and stores
    nothing. *)
Theorem setData_reads_the_first_row
    (this : instance) (st : store) (qs : list (string * value)) :
  (forall ps rest,
      assoc "rows" qs = Some (VArr (VObj ps :: rest)) ->
      has_key "rows" ps = false ->
      has_key "hasOwnProperty" qs = false ->
      has_key "hasOwnProperty" ps = false ->
      setData this (VObj qs) st = setData this (VObj ps) st)
  /\ (assoc "rows" qs = Some (VArr []) ->
      setData this (VObj qs) st = (Throw TypeError, st)).
Proof.
  split.
  - intros ps rest Hq Hp _ _.
    assert (Hsel : select_input (VObj qs) = Ret (VObj ps)).
    { unfold select_input, has_own, has_key. cbn [entries]. rewrite Hq.
      cbn [orb]. now rewrite (get_prop_object qs "rows" _ Hq). }
    assert (Hsel' : select_input (VObj ps) = Ret (VObj ps)).
    { unfold select_input, has_own. cbn [entries]. now rewrite Hp. }
    unfold setData. cbn [is_object]. now rewrite Hsel, Hsel'.
  - intros Hq.
    assert (Hsel : select_input (VObj qs) = Ret VUndefined).
    { unfold select_input, has_own, has_key. cbn [entries]. rewrite Hq.
      cbn [orb]. now rewrite (get_prop_object qs "rows" _ Hq). }
    unfold setData. cbn [is_object]. unfold bind, lift.
    now rewrite Hsel.
Qed.


Lemma not_in_existsb (k : string) (ks : list string) :
  ~ In k ks -> existsb (String.eqb k) ks = false.
Proof.
  intros H. apply not_true_iff_false. intros He.
  apply existsb_exists in He as (k' & Hk' & E).
  apply String.eqb_eq in E. now subst.
Qed.

(** X12. [clear] on one instance: the values of the attribute table, which
    the other instances of the constructor read too, are all [null]
    afterwards; the cleared instance itself no longer finds its
    attributes, although [hasAttribute] still answers [true] for them:
    [getValue] returns [null] and [setValue] stores nothing. A second
    [clear] raises a [TypeError] unless the table was empty. *)
Theorem clear_wipes_the_shared_table
    (sch : schema) (this other : instance) (st : store)
    (table : list (string * attribute)) :
  attributes this = schema_attributes sch ->
  attributes other = schema_attributes sch ->
  heap st !! schema_attributes sch = Some (CAttrs table) ->
  exists this' st',
    clear this st = (Ret this', st')
    /\ (forall k, In k (keys table) -> k <> "" ->
                  getValue other k st' = (Ret VNull, st'))
    /\ (forall k, In k (keys table) ->
                  hasAttribute sch k st' = (Ret true, st'))
    /\ (forall k v,
           ~ In k (index_keys (length table)) -> k <> "length" ->
           getValue this' k st' = (Ret VNull, st')
           /\ setValue this' k v st' = (Ret tt, st'))
    /\ (table <> [] -> fst (clear this' st') = Throw TypeError).
Proof.
  intros Hthis Hother Hl.
  set (l := schema_attributes sch) in *.
  set (rhs := fun (_ _ : string) => @Ret value VNull).
  set (table' := fold_left (write_value rhs) (keys table) table).
  assert (Hrun : for_each
                   (fun k => assign_value (attributes this) k
                               (fun _ => Ret VNull))
                   (keys table) st
                 = (Ret tt,
                    {| heap := <[l := CAttrs table']> (heap st);
                       console := console st |})).
  { rewrite Hthis.
    apply (for_each_assign_all rhs l (keys table) st table Hl).
    - intros k a _ _. now exists VNull.
    - intros k Hk. now apply has_key_In. }
  set (h1 := <[l := CAttrs table']> (heap st)).
  set (n := length table).
  set (st' := {| heap := h1 ++ [CArray n []]; console := console st |}).
  set (this' := with_attributes this (length h1)).
  assert (Hclear : clear this st = (Ret this', st')).
  { unfold clear, bind, read_cell, lift. cbv beta iota.
    rewrite Hthis, Hl. cbn [cell_keys]. rewrite <- Hthis, Hrun.
    unfold alloc_cell, ret. cbv beta iota. cbn [heap console].
    unfold keys. rewrite length_map. reflexivity. }
  assert (Hlt : (l < length h1)%nat).
  { unfold h1. rewrite length_insert. eapply lookup_lt_Some; eauto. }
  assert (Hl1 : heap st' !! l = Some (CAttrs table')).
  { unfold st'. cbn [heap]. rewrite lookup_app_l by exact Hlt.
    apply list_lookup_insert_eq. eapply lookup_lt_Some; eauto. }
  assert (Hl2 : heap st' !! attributes this' = Some (CArray n [])).
  { unfold st', this'. cbn [heap attributes with_attributes].
    now apply list_lookup_middle. }
  exists this', st'. split; [exact Hclear|]. split; [|split; [|split]].
  - intros k Hk Hne.
    rewrite (getValue_table other st' table' k); [|now rewrite Hother|exact Hne].
    unfold table'. rewrite assoc_write_all.
    apply has_key_In in Hk. unfold has_key in Hk.
    destruct (assoc k table) as [a|] eqn:Ha; [|discriminate].
    cbn [option_map]. rewrite existsb_keys. unfold has_key. rewrite Ha.
    reflexivity.
  - intros k Hk. unfold hasAttribute, bind, read_cell. cbv beta iota.
    fold l. rewrite Hl1. cbn [cell_has].
    assert (Hhas : has_key k table' = true).
    { apply has_key_In. unfold table'. now rewrite keys_write_all. }
    now rewrite Hhas.
  - intros k v Hidx Hlen.
    assert (Hno : cell_has (Some (CArray n [])) k = false).
    { cbn [cell_has]. rewrite (not_in_existsb k _ Hidx).
      destruct (String.eqb_spec k "length"); [congruence|]. reflexivity. }
    split.
    + unfold getValue. destruct (String.eqb k ""); [reflexivity|].
      unfold bind, read_cell. cbv beta iota. rewrite Hl2. now rewrite Hno.
    + unfold setValue, bind, read_cell. cbv beta iota. rewrite Hl2.
      now rewrite Hno.
  - intros Hne. unfold clear, bind, read_cell, lift. cbv beta iota.
    rewrite Hl2. cbn [cell_keys keys map]. rewrite app_nil_r.
    unfold n. destruct table as [|p table0]; [congruence|].
    cbn [length index_keys seq map for_each]. unfold bind.
    unfold assign_value at 1. unfold bind, read_cell, lift. cbv beta iota.
    rewrite Hl2. unfold cell_get, n. cbn [length index_keys seq map existsb].
    rewrite String.eqb_refl. reflexivity.
Qed.


(** X14. The [id] of an instance whose schema names an id attribute of the
    table: what is assigned to [id] reads back, except that a falsy id
    ([0], [''], [null], ...) reads back as ['']. Without an id key the
    getter returns [''], and the setter, which then writes the attribute
    [unknown], raises a [TypeError] on a table that has none. *)
Theorem id_reads_back
    (sch : schema) (this : instance) (st : store)
    (table : list (string * attribute)) (v : value) :
  heap st !! attributes this = Some (CAttrs table) ->
  (forall k a,
      schema_idKey sch = Some k -> k <> "" -> assoc k table = Some a ->
      exists st',
        set_id sch this v st = (Ret tt, st')
        /\ get_id sch this st'
           = (Ret (if truthy v then v else VStr ""), st'))
  /\ (schema_idKey sch = None -> assoc "unknown" table = None ->
      get_id sch this st = (Ret (VStr ""), st)
      /\ set_id sch this v st = (Throw TypeError, st)).
Proof.
  intros Hl. split.
  - intros k a Hid Hk Ha.
    assert (Hkey : id_key sch = k).
    { unfold id_key. rewrite Hid.
      destruct (String.eqb_spec k ""); congruence. }
    eexists. split.
    + unfold set_id. rewrite Hkey.
      apply (assign_value_table st _ table k a (fun _ => Ret v) v Hl Ha eq_refl).
    + unfold get_id. rewrite Hid.
      destruct (String.eqb_spec k ""); [congruence|].
      unfold bind, read_value, bind, read_cell, lift. cbv beta iota.
      cbn [heap]. rewrite list_lookup_insert_eq
        by (eapply lookup_lt_Some; eauto).
      cbn [cell_get]. rewrite assoc_set_same. reflexivity.
  - intros Hid Hno. split.
    + unfold get_id. now rewrite Hid.
    + unfold set_id, id_key. rewrite Hid.
      unfold assign_value, bind, read_cell, lift. cbv beta iota.
      rewrite Hl. cbn [cell_get]. now rewrite Hno.
Qed.

(** X15. The setter of [owner]: a string or a number is stored as it is, with
    no parse by the type of [owner_id], except that [''] is stored as
    [null]; any other value is ignored. *)
Theorem owner_setter_stores_ids_only
    (this : instance) (st : store) (table : list (string * attribute))
    (a : attribute) (id : value) :
  heap st !! attributes this = Some (CAttrs table) ->
  assoc "owner_id" table = Some a ->
  match id with
  | VNum _ | VStr _ =>
      exists st',
        set_owner this id st = (Ret tt, st')
        /\ getValue this "owner_id" st'
           = (Ret (match id with VStr EmptyString => VNull | _ => id end), st')
  | _ => set_owner this id st = (Ret tt, st)
  end.
Proof.
  intros Hl Ha.
  assert (Hgo : forall w,
             sanitize id "undefined" = Ret w ->
             (bind (read_cell (attributes this))
                (fun c =>
                   match c with
                   | None => throw TypeError
                   | Some _ =>
                       if cell_has c "owner_id"
                       then assign_value (attributes this) "owner_id"
                              (fun _ => sanitize id "undefined")
                       else ret tt
                   end)) st
             = (Ret tt,
                {| heap := <[attributes this
                             := CAttrs (assoc_set "owner_id" (with_value a w)
                                          table)]> (heap st);
                   console := console st |})).
  { intros w Hw. unfold bind at 1, read_cell. cbv beta iota. rewrite Hl.
    cbn [cell_has]. unfold has_key. rewrite Ha.
    apply (assign_value_table st _ table "owner_id" a
             (fun _ => sanitize id "undefined") w Hl Ha Hw). }
  assert (Hread : forall w,
             getValue this "owner_id"
               {| heap := <[attributes this
                            := CAttrs (assoc_set "owner_id" (with_value a w)
                                         table)]> (heap st);
                  console := console st |}
             = (Ret w,
                {| heap := <[attributes this
                             := CAttrs (assoc_set "owner_id" (with_value a w)
                                          table)]> (heap st);
                   console := console st |})).
  { intros w.
    rewrite (getValue_table this _
               (assoc_set "owner_id" (with_value a w) table) "owner_id").
    - now rewrite assoc_set_same.
    - apply list_lookup_insert_eq. eapply lookup_lt_Some; eauto.
    - discriminate. }
  destruct id as [| |b|n|s|l|ps]; try reflexivity.
  - eexists. split; [apply Hgo; reflexivity | apply Hread].
  - destruct s as [|c s].
    + eexists. split; [apply Hgo; reflexivity | apply Hread].
    + eexists. split; [apply Hgo; reflexivity | apply Hread].
Qed.

End AccessorProperties.

(** ** Properties of the handlers *)

Section HandlerProperties.
Context `{BI : Builtins}.

Lemma answers_app (a b : list event) :
  answers (a ++ b) = (answers a + answers b)%nat.
Proof. unfold answers. now rewrite List.filter_app, length_app. Qed.

Lemma silent_answers {A} (m : H A) st :
  emits (fun e => is_answer e = false) m -> answers (events (m st)) = 0%nat.
Proof.
  intros Hm. specialize (Hm st). unfold answers.
  induction Hm as [|e tr He _ IH]; [reflexivity|].
  cbn [List.filter]. now rewrite He.
Qed.

Lemma answers_last_hbind {A} (m : H A) (k : A -> H unit) :
  emits (fun e => is_answer e = false) m ->
  (forall a, answers_last (k a)) ->
  answers_last (hbind m k).
Proof.
  intros Hm Hk st. rewrite events_hbind, res_hbind, answers_app.
  rewrite (silent_answers m st Hm).
  destruct (res (m st)) as [a|err]; [apply Hk | reflexivity].
Qed.

Lemma answers_last_next (err : error) : answers_last (next err).
Proof. intros st. reflexivity. Qed.

Lemma answers_last_respond (view : string) (data path : value) :
  answers_last (emit (ERespond view data path)).
Proof. intros st. reflexivity. Qed.

Lemma answers_last_hfail (err : error) : answers_last (hfail err).
Proof. intros st. reflexivity. Qed.

Variable genLabel : string -> value -> string.
Variables (nodeType : string) (sch : schema) (svc : services).

Ltac run :=
  repeat first
    [ rewrite events_hbind | rewrite res_hbind | rewrite final_hbind
    | rewrite events_call | rewrite res_call | rewrite final_call
    | rewrite events_value_of | rewrite res_value_of
    | rewrite final_value_of
    | rewrite events_entity
    | match goal with
      | H : field_or _ _ _ = _ |- _ => rewrite H
      | H : _ = Ok _ |- _ => rewrite H
      | H : _ = Ret _ |- _ => rewrite H
      | H : _ = true |- _ => rewrite H
      | H : _ = false |- _ => rewrite H
      end
    | progress cbv beta iota zeta
    | progress cbn [negb orb andb app]
    | progress unfold next, emit ].

Lemma emits_expand_all (P : event -> Prop) (ds : list value) :
  (forall id, P (ESelectByOwner id)) -> (forall nd, P (EGetAttached nd)) ->
  emits P (expand_all svc ds).
Proof.
  intros Hs Ha. induction ds as [|d ds IH]; cbn [expand_all].
  - apply emits_hret.
  - apply emits_hbind.
    + unfold expand_dependent.
      repeat first
        [ apply emits_hbind; [|intros ?]
        | apply emits_call; solve [apply Hs | apply Ha]
        | apply emits_value_of
        | progress cbv zeta ].
    + intros d'. apply emits_hbind; [exact IH|]. intros rest.
      apply emits_hret.
Qed.

Ltac quiet :=
  unfold next, emit;
  repeat first
    [ apply emits_hbind; [|intros ?]
    | apply emits_call; reflexivity
    | apply emits_hret
    | apply emits_hfail
    | apply emits_value_of
    | apply emits_entity
    | apply emits_expand_all; intros; reflexivity
    | match goal with
      | |- emits _ (if ?c then _ else _) => destruct c
      | |- emits _ (match ?x with _ => _ end) => destruct x
      end
    | progress cbv zeta ].

Ltac answered :=
  repeat first
    [ apply answers_last_next
    | apply answers_last_respond
    | apply answers_last_hfail
    | apply answers_last_hbind; [quiet | intros ?]
    | match goal with
      | |- answers_last (if ?c then _ else _) => destruct c
      | |- answers_last (match ?x with _ => _ end) => destruct x
      end
    | progress cbv zeta ].

Lemma show_body_answers_last params :
  answers_last (show_body genLabel nodeType sch svc params).
Proof. unfold show_body. answered. Qed.

Lemma edit_body_answers_last params :
  answers_last (edit_body genLabel nodeType sch svc params).
Proof. unfold edit_body. answered. Qed.

Lemma add_body_answers_last params :
  answers_last (add_body genLabel nodeType sch svc params).
Proof. unfold add_body. answered. Qed.

Lemma move_body_answers_last params :
  answers_last (move_body genLabel nodeType sch svc params).
Proof. unfold move_body. answered. Qed.

Lemma remove_body_answers_last params :
  answers_last (remove_body genLabel nodeType sch svc params).
Proof. unfold remove_body. answered. Qed.

Lemma with_client_answers_once (body : H unit) st :
  pool_connect svc = Ok tt ->
  answers_last body ->
  answers (events (with_client svc body st)) = 1%nat.
Proof.
  intros Hc Hb. rewrite events_with_client by exact Hc.
  change (EConnect :: ?l) with ([EConnect] ++ l).
  rewrite !answers_app, (Hb st).
  destruct (res (body st)); reflexivity.
Qed.


Lemma falsy_is_not_found (v : value) :
  truthy v = false -> field_or v "type" (VStr "") = VStr "".
Proof. intros Hv. unfold field_or. now rewrite Hv. Qed.

(** X16. Every request for which the pool hands out a client is answered
    exactly once by [show], [add], [edit], [move] and [remove]: one
    response or one call of [next], whatever the services resolve to or
    reject with, and also when the release of the client fails. *)
Theorem a_request_is_answered_once
    (h : value -> H unit) (params : value) (st : store) :
  pool_connect svc = Ok tt ->
  In h (handlers genLabel nodeType sch svc) ->
  answers (events (h params st)) = 1%nat.
Proof.
  intros Hc Hin. unfold handlers in Hin. cbn [In] in Hin.
  destruct Hin as [<-|[<-|[<-|[<-|[<-|[]]]]]];
    apply with_client_answers_once; try exact Hc.
  - apply show_body_answers_last.
  - apply add_body_answers_last.
  - apply edit_body_answers_last.
  - apply move_body_answers_last.
  - apply remove_body_answers_last.
Qed.

(** X17. When the pool hands out no client, no handler reaches its [try]
    block: the rejection of [pool.connect] is the rejection of the
    handler, [next] is not called, nothing is looked up, written or
    released, and the entities are left as they were. *)
Theorem a_failed_checkout_is_not_handled
    (h : value -> H unit) (params : value) (st : store) (err : error) :
  pool_connect svc = Fail err ->
  In h (create genLabel nodeType sch svc
          :: handlers genLabel nodeType sch svc) ->
  events (h params st) = [EConnect]
  /\ res (h params st) = Fail err
  /\ final (h params st) = st.
Proof.
  intros Hc Hin. unfold handlers in Hin. cbn [In] in Hin.
  destruct Hin as [<-|[<-|[<-|[<-|[<-|[<-|[]]]]]]];
    unfold create, show, add, edit, move, remove, with_client;
    rewrite events_hbind, res_hbind, final_hbind, events_call, res_call,
      final_call, Hc;
    repeat split.
Qed.

(** X18. [show], [add] and [edit] only read: in no run do they send a
    statement with [client.query] or call a service that writes. *)
Theorem reading_handlers_change_nothing (params : value) :
  emits (fun e => mutating e = false) (show genLabel nodeType sch svc params)
  /\ emits (fun e => mutating e = false)
       (add genLabel nodeType sch svc params)
  /\ emits (fun e => mutating e = false)
       (edit genLabel nodeType sch svc params).
Proof.
  repeat split.
  - unfold show. apply emits_with_client; try reflexivity.
    unfold show_body. quiet.
  - unfold add. apply emits_with_client; try reflexivity.
    unfold add_body. quiet.
  - unfold edit. apply emits_with_client; try reflexivity.
    unfold edit_body. quiet.
Qed.

(** X19. When [nserve.get] resolves to nothing ([null], [undefined] or any
    other falsy value), [show], [edit] and [remove] hand [notFound] to
    [next] right after the lookup; [move] looks the owner up first. *)
Theorem missing_node_is_not_found params st id itemData :
  pool_connect svc = Ok tt ->
  getId genLabel nodeType sch params = Ret id ->
  nserve_get svc id nodeType = Ok itemData ->
  truthy itemData = false ->
  let rejected :=
    [EConnect; EGet id nodeType; ENext (Error "notFound"); ERelease] in
  let owner_id := field_or params "owner_id" VNull in
  events (show genLabel nodeType sch svc params st) = rejected
  /\ events (edit genLabel nodeType sch svc params st) = rejected
  /\ events (remove genLabel nodeType sch svc params st) = rejected
  /\ events (move genLabel nodeType sch svc params st)
     = [EConnect; EGet id nodeType; ESelect owner_id]
         ++ match nserve_select svc owner_id with
            | Ok _ => [ENext (Error "notFound")]
            | Fail err => [EConsoleError err; ENext err]
            end
         ++ [ERelease].
Proof.
  intros Hc Hid Hget Hno rejected owner_id. subst rejected owner_id.
  repeat split.
  - unfold show. rewrite events_with_client by exact Hc.
    unfold show_body. run. reflexivity.
  - unfold edit. rewrite events_with_client by exact Hc.
    unfold edit_body. run. reflexivity.
  - unfold remove. rewrite events_with_client by exact Hc.
    unfold remove_body. run. reflexivity.
  - unfold move. rewrite events_with_client by exact Hc.
    unfold move_body. run.
    destruct (nserve_select svc (field_or params "owner_id" VNull))
      as [ownerData|err]; run; [|reflexivity].
    rewrite orb_true_r. run. reflexivity.
Qed.

(** X20. The decision of [move], once the node is found with the expected
    type, the owner is found and there are no comparisons: [mserve.move]
    is called exactly when [isRelatable] resolves to a truthy value and
    the status is [unsorted], [sorted] or [missing]; otherwise
    [invalidMove] goes to [next]. After the call, a falsy result is
    answered with [invalidRequest], and a truthy one with the record as
    it was read before the move. *)
Theorem move_goes_through_when_allowed
    params st id itemData ownerData comparisons isMoveable item st' :
  let owner_id := field_or params "owner_id" VNull in
  let nd := field_or itemData "node" VUndefined in
  let status := field_or itemData "status" (VStr "") in
  let metadata := field_or itemData "metadata" (VObj []) in
  pool_connect svc = Ok tt ->
  getId genLabel nodeType sch params = Ret id ->
  nserve_get svc id nodeType = Ok itemData ->
  get_prop itemData "type" = VStr nodeType ->
  nserve_select svc owner_id = Ok ownerData ->
  truthy ownerData = true ->
  getComparisonsMetadata svc nd = Ok comparisons ->
  nonempty_array comparisons = false ->
  isRelatable svc id owner_id = Ok isMoveable ->
  Model genLabel nodeType sch metadata st = (Ret item, st') ->
  events (move genLabel nodeType sch svc params st)
  = [EConnect; EGet id nodeType; ESelect owner_id; EGetComparisons nd;
     EIsRelatable id owner_id]
      ++ (if truthy isMoveable
             && (is_string "unsorted" status || is_string "sorted" status
                 || is_string "missing" status)
          then EMove item ownerData
                 :: match mserve_move svc item ownerData with
                    | Ok result =>
                        if truthy result
                        then [ERespond "show" itemData VUndefined]
                        else [ENext (Error "invalidRequest")]
                    | Fail err => [EConsoleError err; ENext err]
                    end
          else [ENext (Error "invalidMove")])
      ++ [ERelease].
Proof.
  intros owner_id nd status metadata Hc Hid Hget Hty Hsel Hown Hcmp Hno Hrel
    Hmodel.
  pose proof (typed_is_truthy _ _ Hty) as Ht.
  pose proof (field_or_present itemData "type" (VStr "") (VStr nodeType)
                Ht Hty ltac:(discriminate)) as Hf.
  pose proof (is_string_same nodeType) as Hs.
  subst owner_id nd metadata.
  rewrite events_move by exact Hc. unfold move_body. run.
  fold status.
  destruct (truthy isMoveable); run; [|reflexivity].
  destruct (is_string "unsorted" status); run;
    [|destruct (is_string "sorted" status); run;
      [|destruct (is_string "missing" status); run; [|reflexivity]]].
  all: rewrite res_entity, final_entity, Hmodel; cbn [fst snd]; run.
  all: destruct (mserve_move svc item ownerData) as [result|err]; run;
    [destruct (truthy result); run; reflexivity | reflexivity].
Qed.

(** X21. [remove] of a node without dependents and without comparisons:
    [deleteComparisons] is not called; the owner is looked up with
    [null], whatever the node; [mserve.remove] gets the instance built
    from the stored metadata, and the answer carries the record as it was
    read before the removal. *)
Theorem remove_without_comparisons
    params st id itemData comparisons item st' table owner path :
  let nd := field_or itemData "node" VUndefined in
  pool_connect svc = Ok tt ->
  getId genLabel nodeType sch params = Ret id ->
  nserve_get svc id nodeType = Ok itemData ->
  get_prop itemData "type" = VStr nodeType ->
  truthy (get_prop itemData "hasDependents") = false ->
  getComparisonsMetadata svc nd = Ok comparisons ->
  nonempty_array comparisons = false ->
  heap st !! schema_attributes sch = Some (CAttrs table) ->
  Model genLabel nodeType sch (get_prop itemData "metadata") st
  = (Ret item, st') ->
  nserve_select svc VNull = Ok owner ->
  nserve_getPath svc owner = Ok path ->
  events (remove genLabel nodeType sch svc params st)
  = [EConnect; EGet id nodeType; EGetComparisons nd; ESelect VNull;
     EGetPath owner; ERemove item]
      ++ match mserve_remove svc item with
         | Ok _ => [ERespond "remove" itemData path]
         | Fail err => [EConsoleError err; ENext err]
         end
      ++ [ERelease].
Proof.
  intros nd Hc Hid Hget Hty Hdep Hcmp Hno Hl Hmodel Hsel Hpath.
  pose proof (typed_is_truthy _ _ Hty) as Ht.
  pose proof (field_or_present itemData "type" (VStr "") (VStr nodeType)
                Ht Hty ltac:(discriminate)) as Hf.
  pose proof (is_string_same nodeType) as Hs.
  subst nd.
  destruct (construct_attributes _ _ _ _ _ _ _ Hmodel) as [Hattr Hst'].
  assert (Hkeep : table_at st' (schema_attributes sch) (keys table)).
  { rewrite Hst'.
    change (schema_attributes sch)
      with (attributes (this_of genLabel nodeType sch
                          (get_prop itemData "metadata"))).
    apply setData_keeps. now exists table. }
  destruct Hkeep as (table' & Hl' & _).
  destruct (node_returns sch item st' table' Hattr Hl') as [a Hnode].
  rewrite events_remove by exact Hc. unfold remove_body. run.
  change (final (hret tt st)) with st.
  change (res (hret tt st)) with (@Ok unit tt).
  change (events (hret tt st)) with (@nil event). run.
  rewrite res_entity, final_entity, Hmodel. cbn [fst snd]. run.
  rewrite res_entity, ?final_entity, Hnode. cbn [fst snd]. run.
  destruct (mserve_remove svc item) as [[]|err]; run; reflexivity.
Qed.

(** X22. [create] on a model that is not a root, when the owner is not found:
    [invalidRequest] goes to [next] after [BEGIN], and the client is
    released with neither [COMMIT] nor [ROLLBACK] sent. When the owner is
    found, or the model is a root, and the importer takes the request,
    [COMMIT] is sent right after, without an answer from the handler. *)
Theorem create_checks_the_owner_inside_the_transaction params st owner :
  let owner_id := field_or params "owner_id" VNull in
  pool_connect svc = Ok tt ->
  client_query svc "BEGIN" = Ok tt ->
  nserve_select svc owner_id = Ok owner ->
  events (create genLabel nodeType sch svc params st)
  = [EConnect; EQuery "BEGIN"; ESelect owner_id]
      ++ (if negb (truthy owner)
             && negb (isRoot (model genLabel nodeType sch))
          then [ENext (Error "invalidRequest")]
          else EImport params
                 :: match importer_receive svc params with
                    | Ok _ =>
                        EQuery "COMMIT"
                          :: match client_query svc "COMMIT" with
                             | Ok _ => []
                             | Fail err =>
                                 EQuery "ROLLBACK"
                                   :: match client_query svc "ROLLBACK" with
                                      | Ok _ => [EConsoleError err; ENext err]
                                      | Fail _ => []
                                      end
                             end
                    | Fail err =>
                        EQuery "ROLLBACK"
                          :: match client_query svc "ROLLBACK" with
                             | Ok _ => [EConsoleError err; ENext err]
                             | Fail _ => []
                             end
                    end)
      ++ [ERelease].
Proof.
  intros owner_id Hc Hb Hsel. subst owner_id. unfold create.
  rewrite events_hbind, events_call, res_call, Hc, final_call.
  rewrite events_try_finally, events_try_catch, events_call.
  run.
  destruct (negb (truthy owner)
            && negb (isRoot (model genLabel nodeType sch))); run;
    [reflexivity|].
  destruct (importer_receive svc params) as [[]|e2]; run;
    [destruct (client_query svc "COMMIT") as [[]|e3]; run; [reflexivity|]|];
    destruct (client_query svc "ROLLBACK") as [[]|e4]; run; reflexivity.
Qed.





End HandlerProperties.

(** ** The further properties on the sample data *)

Lemma sanitize_raises_on_what_it_cannot_print_witness :
  exists e, sanitize MoreSample.unprintable "integer" = Throw e.
Proof.
  apply (sanitize_raises_on_what_it_cannot_print MoreSample.unprintable
           "integer" eq_refl).
  right. split; reflexivity.
Defined.

Lemma sanitized_text_holds_no_tag_witness :
  exists s,
    MoreSample.plain = VStr s
    /\ matches_tag s = false
    /\ forall pre mid post,
         mid <> EmptyString -> contains_gt mid = false ->
         s <> pre +:+ String lt (mid +:+ String gt post).
Proof.
  apply (sanitized_text_holds_no_tag MoreSample.markup MoreSample.plain
           "text"); [now left | reflexivity].
Defined.

Lemma sanitize_text_is_idempotent_witness :
  sanitize MoreSample.plain "varying character" = Ret MoreSample.plain.
Proof.
  apply (sanitize_text_is_idempotent MoreSample.markup MoreSample.plain
           "varying character"); [now right | reflexivity].
Defined.

Lemma slug_is_a_safe_name_witness :
  slug "Station 12 / North Ridge" = "Station_12NorthRidge".
Proof.
  exact (proj2 (proj2 (slug_is_a_safe_name "Station 12 / North Ridge"))
           "Station" "12 / North Ridge" eq_refl eq_refl).
Defined.

Lemma groupBy_partitions_the_rows_witness :
  exists groups,
    groupBy (VArr MoreSample.people) "name" = Ret (VObj groups)
    /\ forall g,
         assoc g groups
         = match List.filter (in_group "name" g) MoreSample.people with
           | [] => None
           | members => Some (VArr members)
           end.
Proof.
  exact (groupBy_partitions_the_rows MoreSample.people "name" eq_refl
           eq_refl).
Defined.

Lemma groupBy_rejects_bad_rows_witness :
  groupBy (VArr [MoreSample.person 1 "John"; MoreSample.person 2 "valueOf"])
    "name"
  = Throw TypeError.
Proof.
  exact (proj2 (proj2 (groupBy_rejects_bad_rows
                         (VArr [MoreSample.person 1 "John";
                                MoreSample.person 2 "valueOf"]) "name"))
           _ eq_refl eq_refl).
Defined.

Lemma visits_keys_distinct : List.NoDup (keys MoreSample.visits_table).
Proof. repeat constructor; simpl; intuition discriminate. Qed.

Lemma visits_types_are_own (k : string) (a : attribute) :
  assoc k MoreSample.visits_table = Some a -> own_type (attr_type a) = true.
Proof.
  cbn [MoreSample.visits_table Sample.column assoc].
  repeat (destruct (String.eqb k _);
          [intros H; injection H as <-; reflexivity|]).
  discriminate.
Qed.

Lemma date_is_a_name : "date" <> "".
Proof. discriminate. Qed.

Lemma visit_input_is_defined (k : string) (x : value) :
  assoc k [("date", MoreSample.markup); ("bogus", VStr "1")] = Some x ->
  x <> VUndefined /\ printable x = true.
Proof.
  cbn [assoc]. destruct (String.eqb k "date");
    [intros H; injection H as <-; split; [discriminate|reflexivity]|].
  destruct (String.eqb k "bogus");
    [intros H; injection H as <-; split; [discriminate|reflexivity]|].
  discriminate.
Qed.

Lemma setValue_then_getValue_witness :
  setValue MoreSample.visit "date" MoreSample.markup MoreSample.visits_store
  = (Ret tt,
     snd (setValue MoreSample.visit "date" MoreSample.markup
            MoreSample.visits_store))
  /\ getValue MoreSample.visit "date"
       (snd (setValue MoreSample.visit "date" MoreSample.markup
               MoreSample.visits_store))
     = (Ret MoreSample.plain,
        snd (setValue MoreSample.visit "date" MoreSample.markup
               MoreSample.visits_store)).
Proof.
  pose proof (setValue_then_getValue MoreSample.visit MoreSample.visits_store
                MoreSample.visits_table "date"
                (snd (Sample.column "date" "text")) MoreSample.markup
                eq_refl eq_refl eq_refl date_is_a_name) as [Hset [Hget _]].
  exact (conj Hset Hget).
Defined.

Lemma getData_omits_the_filtered_keys_witness :
  exists o,
    getData MoreSample.visit ["owner_id"] MoreSample.visits_store
    = (Ret (VObj o), MoreSample.visits_store)
    /\ keys o = ["nodes_id"; "date"]
    /\ forall k,
         In k (keys o) -> assoc k o = Some (value_at MoreSample.visits_table k).
Proof.
  exact (getData_omits_the_filtered_keys MoreSample.visit
           MoreSample.visits_store MoreSample.visits_table ["owner_id"]
           eq_refl visits_keys_distinct).
Defined.

Lemma setData_then_getData_witness :
  exists st' o,
    setData MoreSample.visit MoreSample.visit_input MoreSample.visits_store
    = (Ret tt, st')
    /\ getData MoreSample.visit [] st' = (Ret (VObj o), st')
    /\ assoc "date" o = Some MoreSample.plain
    /\ assoc "owner_id" o = Some VNull.
Proof.
  destruct (setData_then_getData MoreSample.visit MoreSample.visits_store
              MoreSample.visits_table
              [("date", MoreSample.markup); ("bogus", VStr "1")]
              eq_refl visits_types_are_own eq_refl eq_refl
              visit_input_is_defined)
    as (st' & o & Hset & Hget & Hall).
  exists st', o. split; [exact Hset|]. split; [exact Hget|]. split.
  - destruct (Hall "date" (snd (Sample.column "date" "text")) eq_refl)
      as (v & Hv & Ho).
    rewrite Ho. f_equal. injection Hv as <-. reflexivity.
  - exact (Hall "owner_id" (snd (Sample.column "owner_id" "integer")) eq_refl).
Defined.

Lemma setData_reads_the_first_row_witness :
  setData MoreSample.visit (VObj MoreSample.query_result)
    MoreSample.visits_store
  = setData MoreSample.visit (VObj [("date", VStr "1923")])
      MoreSample.visits_store.
Proof.
  exact (proj1 (setData_reads_the_first_row MoreSample.visit
                  MoreSample.visits_store MoreSample.query_result)
           [("date", VStr "1923")] [VObj [("date", VStr "1931")]]
           eq_refl eq_refl eq_refl eq_refl).
Defined.

Lemma clear_wipes_the_shared_table_witness :
  exists this' st',
    clear MoreSample.visit MoreSample.visits_store = (Ret this', st')
    /\ getValue MoreSample.visit "date" st' = (Ret VNull, st')
    /\ hasAttribute MoreSample.visits_schema "date" st' = (Ret true, st')
    /\ setValue this' "date" MoreSample.markup st' = (Ret tt, st')
    /\ fst (clear this' st') = Throw TypeError.
Proof.
  destruct (clear_wipes_the_shared_table MoreSample.visits_schema
              MoreSample.visit MoreSample.visit MoreSample.visits_store
              MoreSample.visits_table eq_refl eq_refl eq_refl)
    as (this' & st' & Hclear & Hother & Hhas & Hown & Hagain).
  exists this', st'. split; [exact Hclear|]. split; [|split; [|split]].
  - apply Hother; [simpl; tauto | exact date_is_a_name].
  - apply Hhas. simpl. tauto.
  - apply Hown; [simpl; intuition discriminate | discriminate].
  - apply Hagain. discriminate.
Defined.


Lemma id_reads_back_witness :
  (exists st',
      set_id MoreSample.visits_schema MoreSample.visit (Sample.num 7)
        MoreSample.visits_store
      = (Ret tt, st')
      /\ get_id MoreSample.visits_schema MoreSample.visit st'
         = (Ret (Sample.num 7), st'))
  /\ set_id MoreSample.keyless_schema MoreSample.visit (Sample.num 7)
       MoreSample.visits_store
     = (Throw TypeError, MoreSample.visits_store).
Proof.
  split.
  - refine (proj1 (id_reads_back MoreSample.visits_schema MoreSample.visit
                     MoreSample.visits_store MoreSample.visits_table
                     (Sample.num 7) eq_refl)
              "nodes_id" (snd (Sample.column "nodes_id" "integer"))
              eq_refl _ eq_refl).
    discriminate.
  - exact (proj2 (proj2 (id_reads_back MoreSample.keyless_schema
                           MoreSample.visit MoreSample.visits_store
                           MoreSample.visits_table (Sample.num 7) eq_refl)
                    eq_refl eq_refl)).
Defined.

Lemma owner_setter_stores_ids_only_witness :
  exists st',
    set_owner MoreSample.visit (VStr "12") MoreSample.visits_store
    = (Ret tt, st')
    /\ getValue MoreSample.visit "owner_id" st' = (Ret (VStr "12"), st').
Proof.
  exact (owner_setter_stores_ids_only MoreSample.visit
           MoreSample.visits_store MoreSample.visits_table
           (snd (Sample.column "owner_id" "integer")) (VStr "12")
           eq_refl eq_refl).
Defined.

Lemma a_request_is_answered_once_witness :
  answers (events (move Sample.label_of "modern_captures"
                     Sample.captures_schema Sample.failing Sample.request
                     Sample.captures_store))
  = 1%nat.
Proof.
  apply (a_request_is_answered_once Sample.label_of "modern_captures"
           Sample.captures_schema Sample.failing
           (move Sample.label_of "modern_captures"
              Sample.captures_schema Sample.failing)
           Sample.request Sample.captures_store eq_refl).
  right. right. right. left. reflexivity.
Defined.

Lemma a_failed_checkout_is_not_handled_witness :
  events (remove Sample.label_of "modern_captures" Sample.captures_schema
            MoreSample.exhausted Sample.request Sample.captures_store)
  = [EConnect]
  /\ res (remove Sample.label_of "modern_captures" Sample.captures_schema
            MoreSample.exhausted Sample.request Sample.captures_store)
     = Fail (Error "timeout exceeded")
  /\ final (remove Sample.label_of "modern_captures" Sample.captures_schema
              MoreSample.exhausted Sample.request Sample.captures_store)
     = Sample.captures_store.
Proof.
  apply (a_failed_checkout_is_not_handled Sample.label_of "modern_captures"
           Sample.captures_schema MoreSample.exhausted
           (remove Sample.label_of "modern_captures" Sample.captures_schema
              MoreSample.exhausted)
           Sample.request Sample.captures_store (Error "timeout exceeded")
           eq_refl).
  do 5 right. left. reflexivity.
Defined.

Lemma missing_node_is_not_found_witness :
  events (show Sample.label_of "modern_captures" Sample.captures_schema
            MoreSample.vacant Sample.request Sample.captures_store)
  = [EConnect; EGet (Sample.num 7) "modern_captures";
     ENext (Error "notFound"); ERelease]
  /\ events (move Sample.label_of "modern_captures" Sample.captures_schema
               MoreSample.vacant Sample.request Sample.captures_store)
     = [EConnect; EGet (Sample.num 7) "modern_captures"; ESelect (VStr "3");
        ENext (Error "notFound"); ERelease].
Proof.
  exact ((fun H => conj (proj1 H) (proj2 (proj2 (proj2 H))))
           (missing_node_is_not_found Sample.label_of "modern_captures"
              Sample.captures_schema MoreSample.vacant Sample.request
              Sample.captures_store (Sample.num 7) VNull
              eq_refl eq_refl eq_refl eq_refl)).
Defined.

Lemma move_goes_through_when_allowed_witness :
  events (move Sample.label_of "modern_captures" Sample.captures_schema
            MoreSample.stored Sample.request Sample.captures_store)
  = [EConnect; EGet (Sample.num 7) "modern_captures"; ESelect (VStr "3");
     EGetComparisons (Sample.capture_node "unsorted");
     EIsRelatable (Sample.num 7) (VStr "3");
     EMove Sample.capture_item Sample.location;
     ERespond "show" (Sample.capture "unsorted" false) VUndefined;
     ERelease].
Proof.
  exact (move_goes_through_when_allowed Sample.label_of "modern_captures"
           Sample.captures_schema MoreSample.stored Sample.request
           Sample.captures_store (Sample.num 7)
           (Sample.capture "unsorted" false) Sample.location (VArr [])
           (VBool true) Sample.capture_item
           (snd (Model Sample.label_of "modern_captures"
                   Sample.captures_schema (VObj [("nodes_id", Sample.num 7)])
                   Sample.captures_store))
           eq_refl eq_refl eq_refl eq_refl eq_refl eq_refl eq_refl eq_refl
           eq_refl eq_refl).
Defined.

Lemma remove_without_comparisons_witness :
  events (remove Sample.label_of "modern_captures" Sample.captures_schema
            MoreSample.stored Sample.request Sample.captures_store)
  = [EConnect; EGet (Sample.num 7) "modern_captures";
     EGetComparisons (Sample.capture_node "unsorted");
     ESelect VNull; EGetPath Sample.location;
     ERemove Sample.capture_item;
     ERespond "remove" (Sample.capture "unsorted" false)
       (VArr [Sample.location]);
     ERelease].
Proof.
  exact (remove_without_comparisons Sample.label_of "modern_captures"
           Sample.captures_schema MoreSample.stored Sample.request
           Sample.captures_store (Sample.num 7)
           (Sample.capture "unsorted" false) (VArr []) Sample.capture_item
           (snd (Model Sample.label_of "modern_captures"
                   Sample.captures_schema (VObj [("nodes_id", Sample.num 7)])
                   Sample.captures_store))
           [Sample.column "nodes_id" "integer";
            Sample.column "fn_photo_reference" "varying character"]
           Sample.location (VArr [Sample.location])
           eq_refl eq_refl eq_refl eq_refl eq_refl eq_refl eq_refl eq_refl
           eq_refl eq_refl eq_refl).
Defined.

Lemma create_checks_the_owner_inside_the_transaction_witness :
  events (create Sample.label_of "modern_captures" Sample.captures_schema
            MoreSample.orphaned Sample.request Sample.captures_store)
  = [EConnect; EQuery "BEGIN"; ESelect (VStr "3");
     ENext (Error "invalidRequest"); ERelease]
  /\ events (create Sample.label_of "modern_captures" Sample.captures_schema
               MoreSample.stored Sample.request Sample.captures_store)
     = [EConnect; EQuery "BEGIN"; ESelect (VStr "3");
        EImport Sample.request; EQuery "COMMIT"; ERelease].
Proof.
  split.
  - exact (create_checks_the_owner_inside_the_transaction
             Sample.label_of "modern_captures" Sample.captures_schema
             MoreSample.orphaned Sample.request Sample.captures_store VNull
             eq_refl eq_refl eq_refl).
  - exact (create_checks_the_owner_inside_the_transaction
             Sample.label_of "modern_captures" Sample.captures_schema
             MoreSample.stored Sample.request Sample.captures_store
             Sample.location eq_refl eq_refl eq_refl).
Defined.

